(** * Text-annotation pipeline: a shallow embedding of process_annotations.py

    The script reads crowd-sourced annotation rows, keeps the rows whose
    confidence reaches a threshold (QC1), groups the kept annotations by
    their text, separates the texts on which all labels agree from those
    with conflicting labels (QC2) and writes a JSONL data set and a
    disagreement report.

    Python values are modelled as they occur in the script: a row is a
    dict from column names to [str] or [None] (csv.DictReader fills short
    rows with [None]), an exception is an explicit [Raise] result, the
    insertion-ordered dicts are association lists, Python sets are finite
    sets whose iteration order is left open. *)

From Stdlib Require Import ZArith Ascii SpecFloat.
From stdpp Require Import base option list strings gmap sorting.

(** ** Python values, exceptions *)

(** The values a field of a row can hold. *)
Inductive pyval : Type :=
  | PNone
  | PStr (s : string).

#[global] Instance pyval_eq_dec : EqDecision pyval.
Proof. solve_decision. Defined.

Definition pyval_to_option (v : pyval) : option string :=
  match v with PNone => None | PStr s => Some s end.

Definition pyval_of_option (o : option string) : pyval :=
  match o with None => PNone | Some s => PStr s end.

#[global] Instance pyval_countable : Countable pyval.
Proof.
  apply (inj_countable' pyval_to_option pyval_of_option).
  by intros [].
Defined.

#[global] Instance PStr_inj : Inj (=) (=) PStr.
Proof. by intros ?? [= ->]. Qed.

(** The exceptions that the script can meet. *)
Inductive exn : Type :=
  | KeyError (k : string)
  | ValueError
  | TypeError
  | FileNotFoundError.

#[global] Instance exn_eq_dec : EqDecision exn.
Proof. solve_decision. Defined.

(** A computation either returns or raises. *)
Inductive result (A : Type) : Type :=
  | Ok (a : A)
  | Raise (e : exn).
Arguments Ok {A} a.
Arguments Raise {A} e.

Definition rbind {A B} (r : result A) (k : A → result B) : result B :=
  match r with
  | Ok a => k a
  | Raise e => Raise e
  end.

Notation "'let!' x := r 'in' k" := (rbind r (λ x, k))
  (at level 10, x name, r at level 100, k at level 200).

Definition returns {A} (r : result A) : Prop := ∃ a, r = Ok a.

(** ** Floating-point numbers

    A Python [float] is an IEEE 754 binary64 number, here a
    [spec_float]; [x >= y] is the IEEE comparison, false as soon as one
    side is a NaN. *)

Definition float : Type := spec_float.

Definition float_ge (x y : float) : bool := SFleb y x.

Definition prec : Z := 53.
Definition emax : Z := 1024.

(** [CONFIDENCE_THRESHOLD = 0.8], the binary64 number nearest to 8/10. *)
Definition CONFIDENCE_THRESHOLD : float :=
  S754_finite false 7205759403792794 (-53).

(** ** Rows and accepted annotations *)

(** A row produced by [csv.DictReader]. *)
Abbreviation raw_record := (gmap string pyval).

(** [row[k]] *)
Definition subscript (row : raw_record) (k : string) : result pyval :=
  match row !! k with
  | Some v => Ok v
  | None => Raise (KeyError k)
  end.

(** [row.get(k)] *)
Definition dict_get (row : raw_record) (k : string) : pyval :=
  default PNone (row !! k).

(** The dict appended to [filtered]. *)
Record annotation : Type := Annotation {
  text : pyval;
  annotator_id : pyval;
  label : pyval;
  confidence_score : float
}.

#[global] Instance float_eq_dec : EqDecision float.
Proof. solve_decision. Defined.

#[global] Instance annotation_eq_dec : EqDecision annotation.
Proof. solve_decision. Defined.

(** ** A decimal instance of [float()]

    [float] of the standard library is a parameter of the development
    below. [decimal_float] is an instance for the examples: an optional
    sign, digits, an optional point and digits, rounded to the nearest
    binary64 number, ties to even. *)

Fixpoint scan_decimal (s : string) (n : Z) (k : nat) (dot digit : bool)
  : option (Z * nat) :=
  match s with
  | EmptyString => if digit then Some (n, k) else None
  | String c s' =>
      match Ascii.is_nat c with
      | Some d =>
          scan_decimal s' (10 * n + Z.of_nat d) (if dot then S k else k) dot true
      | None =>
          if decide (c = "."%char ∧ dot = false)
          then scan_decimal s' n k true digit
          else None
      end
  end.

Definition nearest_float (sign : bool) (n : Z) (k : nat) : float :=
  match n with
  | Z0 => S754_zero sign
  | _ =>
      let '(q, e, loc) := SFdiv_core_binary prec emax n 0 (10 ^ Z.of_nat k) 0 in
      binary_round_aux prec emax sign q e loc
  end.

Definition decimal_float (s : string) : option float :=
  let '(sign, body) :=
    match s with
    | String "-"%char s' => (true, s')
    | String "+"%char s' => (false, s')
    | _ => (false, s)
    end in
  '(n, k) ← scan_decimal body 0 0 false false;
  Some (nearest_float sign n k).

(** ** Strings of the output files *)

Definition char_str (c : ascii) : string := String c EmptyString.

Definition newline : string := char_str "010".
Definition dquote : string := char_str "034".
Definition backslash : string := char_str "092".

Definition hex_digit (n : N) : ascii :=
  match n with
  | 0 => "0" | 1 => "1" | 2 => "2" | 3 => "3" | 4 => "4" | 5 => "5"
  | 6 => "6" | 7 => "7" | 8 => "8" | 9 => "9" | 10 => "a" | 11 => "b"
  | 12 => "c" | 13 => "d" | 14 => "e" | _ => "f"
  end%N%char.

(** One character through [ESCAPE_DCT] of [json.encoder]: the quote, the
    backslash and the control characters below 0x20 are escaped, every
    other byte (also the bytes of a UTF-8 sequence, [ensure_ascii=False])
    is copied. *)
Definition json_escape_char (c : ascii) : string :=
  let n := N_of_ascii c in
  if decide (n = 34)%N then backslash +:+ dquote
  else if decide (n = 92)%N then backslash +:+ backslash
  else if decide (n = 8)%N then backslash +:+ "b"
  else if decide (n = 12)%N then backslash +:+ "f"
  else if decide (n = 10)%N then backslash +:+ "n"
  else if decide (n = 13)%N then backslash +:+ "r"
  else if decide (n = 9)%N then backslash +:+ "t"
  else if decide (n < 32)%N then
    backslash +:+ "u00" +:+ String (hex_digit (n / 16)) (char_str (hex_digit (n mod 16)))
  else char_str c.

Fixpoint json_escape (s : string) : string :=
  match s with
  | EmptyString => EmptyString
  | String c s' => json_escape_char c +:+ json_escape s'
  end.

(** [json.dumps(v, ensure_ascii=False)] on a field value. *)
Definition json_dumps_value (v : pyval) : string :=
  match v with
  | PNone => "null"
  | PStr s => dquote +:+ json_escape s +:+ dquote
  end.

(** [json.dumps({"text": t, "label": l}, ensure_ascii=False)] *)
Definition json_dumps_record (t l : pyval) : string :=
  "{" +:+ dquote +:+ "text" +:+ dquote +:+ ": " +:+ json_dumps_value t +:+
  ", " +:+ dquote +:+ "label" +:+ dquote +:+ ": " +:+ json_dumps_value l +:+ "}".

(** [str(v)], as an f-string formats a field. *)
Definition py_str (v : pyval) : string :=
  match v with
  | PNone => "None"
  | PStr s => s
  end.

Definition as_str (v : pyval) : result string :=
  match v with
  | PStr s => Ok s
  | PNone => Raise TypeError
  end.

Fixpoint all_str (l : list pyval) : result (list string) :=
  match l with
  | [] => Ok []
  | v :: l' =>
      let! s := as_str v in
      let! ss := all_str l' in
      Ok (s :: ss)
  end.

(** [sorted(l)]: strings are ordered by code point, which on UTF-8 bytes
    is the byte-wise order [String.le]; comparing [None] with anything
    is a [TypeError], and with two elements or more every element is
    compared. *)
Definition py_sorted (l : list pyval) : result (list pyval) :=
  match l with
  | [] | [_] => Ok l
  | _ =>
      let! ss := all_str l in
      Ok (PStr <$> merge_sort String.le ss)
  end.

(** [sep.join(l)] accepts strings only. *)
Definition py_join (sep : string) (l : list pyval) : result string :=
  let! ss := all_str l in
  Ok (String.concat sep ss).

(** ** Reading a line of the clean data set back

    A reader for the records that [json.dumps] writes here, used to state
    that a line determines its sample. *)

Definition hex_value (c : ascii) : option N :=
  let n := N_of_ascii c in
  if decide (48 ≤ n ∧ n ≤ 57)%N then Some (n - 48)%N
  else if decide (97 ≤ n ∧ n ≤ 102)%N then Some (n - 87)%N
  else None.

Definition push_char (c : ascii) (r : option (string * string))
  : option (string * string) :=
  '(s, rest) ← r; Some (String c s, rest).

(** The string literal whose opening quote has been read: the decoded
    characters and what follows the closing quote. *)
Fixpoint read_json_string (s : string) : option (string * string) :=
  match s with
  | EmptyString => None
  | String c s' =>
      let n := N_of_ascii c in
      if decide (n = 34)%N then Some (EmptyString, s')
      else if decide (n = 92)%N then
        match s' with
        | EmptyString => None
        | String e s'' =>
            let m := N_of_ascii e in
            if decide (m = 34)%N then push_char "034" (read_json_string s'')
            else if decide (m = 92)%N then push_char "092" (read_json_string s'')
            else if decide (m = 98)%N then push_char "008" (read_json_string s'')
            else if decide (m = 102)%N then push_char "012" (read_json_string s'')
            else if decide (m = 110)%N then push_char "010" (read_json_string s'')
            else if decide (m = 114)%N then push_char "013" (read_json_string s'')
            else if decide (m = 116)%N then push_char "009" (read_json_string s'')
            else if decide (m = 117)%N then
              match s'' with
              | String h1 (String h2 (String h3 (String h4 s3))) =>
                  match hex_value h1, hex_value h2, hex_value h3, hex_value h4 with
                  | Some 0%N, Some 0%N, Some a, Some b =>
                      push_char (ascii_of_N (16 * a + b)) (read_json_string s3)
                  | _, _, _, _ => None
                  end
              | _ => None
              end
            else None
        end
      else if decide (n < 32)%N then None
      else push_char c (read_json_string s')
  end.

Fixpoint strip_prefix (p s : string) : option string :=
  match p, s with
  | EmptyString, _ => Some s
  | String c p', String c' s' => if decide (c = c') then strip_prefix p' s' else None
  | String _ _, EmptyString => None
  end.

(** What stands before the text and before the label of a record, up
    to the opening quote. *)
Definition text_prefix : string :=
  "{" +:+ dquote +:+ "text" +:+ dquote +:+ ": " +:+ dquote.

Definition label_prefix : string :=
  ", " +:+ dquote +:+ "label" +:+ dquote +:+ ": " +:+ dquote.

(** A whole line: a record with the fields [text] and [label], in this
    order, and the line feed. *)
Definition read_clean_line (line : string) : option (string * string) :=
  s1 ← strip_prefix text_prefix line;
  '(t, s2) ← read_json_string s1;
  s3 ← strip_prefix label_prefix s2;
  '(l, s4) ← read_json_string s3;
  if decide (s4 = "}" +:+ newline) then Some (t, l) else None.

(** ** Insertion-ordered dicts *)

(** [d[k] = v] *)
Fixpoint dict_set {K V} `{EqDecision K} (k : K) (v : V) (d : list (K * V))
  : list (K * V) :=
  match d with
  | [] => [(k, v)]
  | (k', v') :: d' =>
      if decide (k = k') then (k', v) :: d' else (k', v') :: dict_set k v d'
  end.

(** [d[k].append(v)] on a [defaultdict(list)] *)
Fixpoint dict_append {K V} `{EqDecision K} (k : K) (v : V) (d : list (K * list V))
  : list (K * list V) :=
  match d with
  | [] => [(k, [v])]
  | (k', vs) :: d' =>
      if decide (k = k') then (k', vs ++ [v]) :: d' else (k', vs) :: dict_append k v d'
  end.

(** ** The stages of the pipeline *)

Section Pipeline.
(** [float(s)] on a string: [None] stands for [ValueError]. *)
Variable float_of_str : string → option float.

(** The elements of the set built from a list, in the order in which
    the set is iterated (it depends on the hashes of the run). *)
Variable set_of : list pyval → list pyval.

(** The rows that [csv.DictReader] yields for the content of a file. *)
Variable csv_DictReader : string → result (list raw_record).

(** [float(v)] *)
Definition py_float (v : pyval) : result float :=
  match v with
  | PNone => Raise TypeError
  | PStr s =>
      match float_of_str s with
      | Some x => Ok x
      | None => Raise ValueError
      end
  end.

Definition read_raw_annotations (input : option string) : result (list raw_record) :=
  match input with
  | None => Raise FileNotFoundError
  | Some content => csv_DictReader content
  end.

(** One iteration of the loop of [filter_by_confidence]: [Ok None] is
    [continue] or a row below the threshold. *)
Definition filter_row (row : raw_record) (threshold : float)
  : result (option annotation) :=
  match (let! v := subscript row "confidence_score" in py_float v) with
  | Raise (KeyError _) | Raise ValueError => Ok None
  | Raise e => Raise e
  | Ok confidence =>
      if float_ge confidence threshold then
        let! t := subscript row "text" in
        let! l := subscript row "label" in
        Ok (Some {| text := t;
                    annotator_id := dict_get row "annotator_id";
                    label := l;
                    confidence_score := confidence |})
      else Ok None
  end.

Fixpoint filter_loop (rows : list raw_record) (threshold : float)
  (filtered : list annotation) : result (list annotation) :=
  match rows with
  | [] => Ok filtered
  | row :: rows' =>
      let! r := filter_row row threshold in
      match r with
      | Some a => filter_loop rows' threshold (filtered ++ [a])
      | None => filter_loop rows' threshold filtered
      end
  end.

Definition filter_by_confidence (annotations : list raw_record) (threshold : float)
  : result (list annotation) :=
  filter_loop annotations threshold [].

Definition group_by_text (annotations : list annotation)
  : list (pyval * list annotation) :=
  foldl (λ grouped ann, dict_append (text ann) ann grouped) [] annotations.

(** One iteration of the loop of [apply_agreement_check]; [len(labels)
    == 1] holds when the set iterates as a single element, the one
    that [labels.pop()] returns. *)
Definition agreement_step
  (acc : list (pyval * pyval) * list (pyval * list pyval))
  (item : pyval * list annotation)
  : list (pyval * pyval) * list (pyval * list pyval) :=
  let labels := set_of (label <$> item.2) in
  match labels with
  | [l] => (dict_set item.1 l acc.1, acc.2)
  | _ => (acc.1, acc.2 ++ [(item.1, labels)])
  end.

Definition apply_agreement_check (grouped_annotations : list (pyval * list annotation))
  : list (pyval * pyval) * list (pyval * list pyval) :=
  foldl agreement_step ([], []) grouped_annotations.
End Pipeline.

(** A line of the clean data set. *)
Definition clean_line (sample : pyval * pyval) : string :=
  json_dumps_record sample.1 sample.2 +:+ newline.

(** A line of the disagreement report. *)
Definition log_line (d : pyval * list pyval) : result string :=
  let! sorted := py_sorted d.2 in
  let! label_list := py_join ", " sorted in
  Ok ("TEXT: " +:+ py_str d.1 +:+ " | LABELS: " +:+ label_list +:+ newline).

(** The loop over [disagreements]: what has been written stays in the
    file when an iteration raises. *)
Fixpoint write_log (disagreements : list (pyval * list pyval)) (written : string)
  : string * option exn :=
  match disagreements with
  | [] => (written, None)
  | d :: rest =>
      match log_line d with
      | Ok line => write_log rest (written +:+ line)
      | Raise e => (written, Some e)
      end
  end.

(** The state of the two output files after a run; [None] is a file
    that was not opened. *)
Record outputs : Type := Outputs {
  clean_training_dataset : option string;
  disagreements_log : option string;
  raised : option exn
}.

Definition write_outputs (agreed_samples : list (pyval * pyval))
  (disagreements : list (pyval * list pyval)) : outputs :=
  let clean := foldl (λ f sample, f +:+ clean_line sample) EmptyString agreed_samples in
  let '(log, e) := write_log disagreements EmptyString in
  {| clean_training_dataset := Some clean; disagreements_log := Some log; raised := e |}.

Definition aborted (e : exn) : outputs :=
  {| clean_training_dataset := None; disagreements_log := None; raised := Some e |}.

Section Main.
Variable float_of_str : string → option float.
Variable set_of : list pyval → list pyval.
Variable csv_DictReader : string → result (list raw_record).

(** Steps (b) to (d) of [main], on the rows read in step (a). *)
Definition process (raw_annotations : list raw_record) (threshold : float) : outputs :=
  match filter_by_confidence float_of_str raw_annotations threshold with
  | Raise e => aborted e
  | Ok high_conf_annotations =>
      let grouped := group_by_text high_conf_annotations in
      let '(agreed_samples, disagreements) := apply_agreement_check set_of grouped in
      write_outputs agreed_samples disagreements
  end.

Definition main (input : option string) : outputs :=
  match read_raw_annotations csv_DictReader input with
  | Raise e => aborted e
  | Ok raw_annotations => process raw_annotations CONFIDENCE_THRESHOLD
  end.
End Main.

(** First-seen order: the first occurrences of the elements of a list, in
    the order of the list. *)
Fixpoint first_seen {A} `{EqDecision A} (l : list A) : list A :=
  match l with
  | [] => []
  | x :: l' => x :: filter (λ y, y ≠ x) (first_seen l')
  end.

(** ** Reference descriptions used in the statements *)

Section Reference.
Variable float_of_str : string → option float.

(** The confidence of a row: the field is there, is a string, and the
    string parses. *)
Definition parsed_confidence (row : raw_record) : option float :=
  match row !! "confidence_score" with
  | Some (PStr s) => float_of_str s
  | _ => None
  end.

(** The annotation of a row that reaches the threshold and has a text
    and a label. *)
Definition accepted_of (threshold : float) (row : raw_record) : option annotation :=
  x ← parsed_confidence row;
  t ← row !! "text";
  l ← row !! "label";
  if float_ge x threshold
  then Some {| text := t; annotator_id := dict_get row "annotator_id";
               label := l; confidence_score := x |}
  else None.

(** The confidence field is absent or a string. *)
Definition confidence_is_text (row : raw_record) : Prop :=
  row !! "confidence_score" ≠ Some PNone.

(** A row that reaches the threshold carries a text and a label. *)
Definition complete_if_confident (threshold : float) (row : raw_record) : Prop :=
  ∀ x, parsed_confidence row = Some x → float_ge x threshold = true →
    is_Some (row !! "text") ∧ is_Some (row !! "label").
End Reference.

(** What is asked of the iteration order of a set: every element of
    the list once, nothing else. *)
Definition set_order (set_of : list pyval → list pyval) : Prop :=
  ∀ l, NoDup (set_of l) ∧ ∀ x, x ∈ set_of l ↔ x ∈ l.

(** The distinct labels of a group. *)
Definition label_set (anns : list annotation) : gset pyval :=
  list_to_set (label <$> anns).

Section Entries.
Variable set_of : list pyval → list pyval.

(** What a group adds to [agreed_samples], and to [disagreements]. *)
Definition agreed_entry (item : pyval * list annotation) : option (pyval * pyval) :=
  match set_of (label <$> item.2) with
  | [l] => Some (item.1, l)
  | _ => None
  end.

Definition disagreement_entry (item : pyval * list annotation)
  : option (pyval * list pyval) :=
  match set_of (label <$> item.2) with
  | [l] => None
  | labels => Some (item.1, labels)
  end.
End Entries.

(** A file as the lines written to it, one after the other. *)
Definition file_of_lines (lines : list string) : string :=
  foldr String.app EmptyString lines.

(** Agreed samples and disagreements whose fields are all strings. *)
Definition str_sample (sample : string * string) : pyval * pyval :=
  (PStr sample.1, PStr sample.2).

Definition str_disagreement (d : string * list string) : pyval * list pyval :=
  (PStr d.1, PStr <$> d.2).

(** Two disagreements with the same text and the same labels, listed in
    orders that may differ. *)
Definition same_disagreement (d1 d2 : pyval * list pyval) : Prop :=
  d1.1 = d2.1 ∧ d1.2 ≡ₚ d2.2.

(** A second iteration order: first occurrences, last one first. *)
Definition first_seen_reversed (l : list pyval) : list pyval :=
  reverse (first_seen l).

(** Rows of the examples. *)
Definition make_row (t a l c : string) : raw_record :=
  <["text" := PStr t]> (<["annotator_id" := PStr a]>
    (<["label" := PStr l]> (<["confidence_score" := PStr c]> ∅))).

(** A row with a good confidence and nothing else. *)
Definition row_without_text : raw_record := {[ "confidence_score" := PStr "0.9" ]}.

(** What [csv.DictReader] yields for the line [hello,alice,pos] under the
    header [text,annotator_id,label,confidence_score]. *)
Definition short_row : raw_record :=
  <["text" := PStr "hello"]> (<["annotator_id" := PStr "alice"]>
    (<["label" := PStr "pos"]> (<["confidence_score" := PNone]> ∅))).

(** Rows with every kind of confidence: good, not a number, low and
    without a text, at the threshold, absent. *)
Definition mixed_rows : list raw_record :=
  [ make_row "hello" "alice" "pos" "0.9";
    make_row "hello" "bob" "pos" "abc";
    {[ "confidence_score" := PStr "0.5" ]};
    make_row "world" "carol" "neg" "0.8";
    {[ "text" := PStr "world"; "label" := PStr "pos" ]} ].

(** Annotations of the examples: [x] has two labels, [y] one label
    given twice, [z] a single annotation. *)
Definition example_annotation (t a l : string) : annotation :=
  {| text := PStr t; annotator_id := PStr a; label := PStr l;
     confidence_score := CONFIDENCE_THRESHOLD |}.

Definition example_annotations : list annotation :=
  [ example_annotation "x" "a" "dog";
    example_annotation "y" "a" "pos";
    example_annotation "x" "b" "cat";
    example_annotation "z" "c" "neg";
    example_annotation "y" "b" "pos" ].

Definition example_groups : list (pyval * list annotation) :=
  group_by_text example_annotations.

(** The rows of the two scenarios of the specification. *)
Definition agreement_rows : list raw_record :=
  [ make_row "hello" "alice" "pos" "0.9";
    make_row "hello" "bob" "pos" "0.85";
    make_row "world" "carol" "neg" "0.5" ].

Definition disagreement_rows : list raw_record :=
  [ make_row "x" "a" "cat" "0.9";
    make_row "x" "b" "dog" "0.95" ].

(** A reader that yields given rows whatever the file holds. *)
Definition fixed_reader (rows : list raw_record) : string → result (list raw_record) :=
  λ _, Ok rows.

(** ** Reference descriptions of the errors of QC1 *)

Section Row_error.
Variable float_of_str : string → option float.

(** The exception that a row makes the loop body raise, if it does:
    [float(None)], or a lookup of [text], then of [label], once the
    threshold is reached. *)
Definition row_error (threshold : float) (row : raw_record) : option exn :=
  match row !! "confidence_score" with
  | Some PNone => Some TypeError
  | Some (PStr s) =>
      match float_of_str s with
      | Some x =>
          if float_ge x threshold then
            if decide (row !! "text" = None) then Some (KeyError "text")
            else if decide (row !! "label" = None) then Some (KeyError "label")
            else None
          else None
      | None => None
      end
  | None => None
  end.

(** The exception of the first row that has one. *)
Fixpoint first_error (threshold : float) (rows : list raw_record) : option exn :=
  match rows with
  | [] => None
  | row :: rows' =>
      match row_error threshold row with
      | Some e => Some e
      | None => first_error threshold rows'
      end
  end.
End Row_error.

(** Rows for the examples of the errors: a short line after a good row,
    and a row that lacks its label. *)
Definition rows_with_short_line : list raw_record :=
  [ make_row "hello" "alice" "pos" "0.9"; short_row;
    make_row "world" "carol" "neg" "0.9" ].

Definition row_without_label : raw_record :=
  {[ "text" := PStr "hello"; "confidence_score" := PStr "0.9" ]}.

(** [decimal_float] with the two words of [float()] for a NaN and for
    the positive infinity. *)
Definition special_float (s : string) : option float :=
  if decide (s = "nan") then Some S754_nan
  else if decide (s = "inf") then Some (S754_infinity false)
  else decimal_float s.

(** The text and the label of an annotation, what QC2 looks at. *)
Definition text_label (a : annotation) : pyval * pyval := (text a, label a).

(** A grouping with a group that has no annotation. *)
Definition groups_with_empty : list (pyval * list annotation) :=
  [ (PStr "x", []); (PStr "z", [example_annotation "z" "c" "neg"]) ].

(** The annotations of the examples in another order and from other
    annotators. *)
Definition example_annotations_shuffled : list annotation :=
  reverse example_annotations.

Definition example_annotations_anonymous : list annotation :=
  (λ a, {| text := text a; annotator_id := PNone; label := label a;
           confidence_score := S754_infinity false |}) <$> example_annotations.

(** The number of line feeds of a string. *)
Definition line_feeds (s : string) : nat :=
  length (filter (λ c, c = "010"%char) (String.list_ascii_of_string s)).

(** Disagreements of the examples: the second one has [None] among its
    labels. *)
Definition disagreements_with_None : list (pyval * list pyval) :=
  [ (PStr "x", [PStr "dog"; PStr "cat"]);
    (PStr "y", [PStr "pos"; PNone]);
    (PStr "z", [PStr "b"; PStr "a"]) ].

(** The float of [0.9], as a threshold above [CONFIDENCE_THRESHOLD]. *)
Definition threshold_09 : float := S754_finite false 8106479329266893 (-53).

(** What QC1 keeps of [mixed_rows]. *)
Definition mixed_accepted : list annotation :=
  [ {| text := PStr "hello"; annotator_id := PStr "alice"; label := PStr "pos";
       confidence_score := threshold_09 |};
    {| text := PStr "world"; annotator_id := PStr "carol"; label := PStr "neg";
       confidence_score := CONFIDENCE_THRESHOLD |} ].

(** A disagreement whose text holds a line feed, as a quoted field of
    the input file can. *)
Definition two_line_disagreement : string * list string :=
  ("a" +:+ newline +:+ "b", ["cat"; "dog"]).

(** * Properties *)

Example decimal_float_threshold : decimal_float "0.8" = Some CONFIDENCE_THRESHOLD.
Proof. vm_compute. reflexivity. Qed.

Example decimal_float_09 :
  decimal_float "0.9" = Some (S754_finite false 8106479329266893 (-53)).
Proof. vm_compute. reflexivity. Qed.

Example decimal_float_085 :
  decimal_float "0.85" = Some (S754_finite false 7656119366529843 (-53)).
Proof. vm_compute. reflexivity. Qed.

Example decimal_float_05 :
  decimal_float "0.5" = Some (S754_finite false 4503599627370496 (-53)).
Proof. vm_compute. reflexivity. Qed.

Example decimal_float_abc : decimal_float "abc" = None.
Proof. reflexivity. Qed.

(** ** QC1: the confidence filter *)

Section Filter.
Variable float_of_str : string → option float.

(** The [try] block yields the parsed confidence, is left through the
    [except] clause, or lets a [TypeError] escape. *)
Lemma try_block_cases (row : raw_record) :
  (let! v := subscript row "confidence_score" in py_float float_of_str v) =
  match row !! "confidence_score" with
  | None => Raise (KeyError "confidence_score")
  | Some PNone => Raise TypeError
  | Some (PStr s) =>
      match float_of_str s with Some x => Ok x | None => Raise ValueError end
  end.
Proof.
  unfold subscript. destruct (row !! "confidence_score") as [[|s]|]; done.
Qed.

Lemma filter_row_confident (row : raw_record) τ x :
  parsed_confidence float_of_str row = Some x → float_ge x τ = true →
  filter_row float_of_str row τ =
    let! t := subscript row "text" in
    let! l := subscript row "label" in
    Ok (Some {| text := t; annotator_id := dict_get row "annotator_id";
                label := l; confidence_score := x |}).
Proof.
  intros Hx Hge. unfold filter_row, parsed_confidence in *.
  rewrite try_block_cases.
  destruct (row !! "confidence_score") as [[|s]|]; try done.
  rewrite Hx, Hge. done.
Qed.

(** A row whose confidence is absent, or a string that does not parse,
    or below the threshold, is skipped, whatever else it holds. *)
Lemma filter_row_drops (row : raw_record) τ :
  row !! "confidence_score" ≠ Some PNone →
  (∀ x, parsed_confidence float_of_str row = Some x → float_ge x τ = false) →
  filter_row float_of_str row τ = Ok None.
Proof.
  intros Hnone Hlow. unfold filter_row, parsed_confidence in *.
  rewrite try_block_cases.
  destruct (row !! "confidence_score") as [[|s]|]; try done.
  destruct (float_of_str s) as [x|]; [|done].
  by rewrite (Hlow x).
Qed.


(** On a row whose confidence is absent or a string, and which has a
    text and a label if it is confident, the loop body does what
    [accepted_of] says. *)
Lemma filter_row_accepted_of (row : raw_record) τ :
  confidence_is_text row → complete_if_confident float_of_str τ row →
  filter_row float_of_str row τ = Ok (accepted_of float_of_str τ row).
Proof.
  intros Htext Hfull. unfold accepted_of.
  destruct (parsed_confidence float_of_str row) as [x|] eqn:Hx; simpl.
  - destruct (float_ge x τ) eqn:Hge.
    + rewrite (filter_row_confident _ _ _ Hx Hge).
      destruct (Hfull x Hx Hge) as [[t Ht] [l Hl]].
      unfold subscript. by rewrite Ht, Hl.
    + rewrite filter_row_drops; [|done|].
      * destruct (row !! "text"); simpl; [|done].
        by destruct (row !! "label").
      * intros y. rewrite Hx. by intros [= <-].
  - apply filter_row_drops; [done|]. intros y. by rewrite Hx.
Qed.

(** The loop appends what the iterations accept, in order, as long as
    no iteration raises. *)
Lemma filter_loop_returns rows τ rs acc :
  Forall2 (λ row r, filter_row float_of_str row τ = Ok r) rows rs →
  filter_loop float_of_str rows τ acc = Ok (acc ++ omap id rs).
Proof.
  intros H. revert acc.
  induction H as [|row r rows rs Hr _ IH]; intros acc; simpl.
  - by rewrite app_nil_r.
  - rewrite Hr. simpl. destruct r as [a|]; simpl.
    + by rewrite IH, <- app_assoc.
    + apply IH.
Qed.


(** The first iteration that raises ends the loop with its exception. *)
Lemma filter_loop_raises before row after τ e acc :
  Forall (λ row, returns (filter_row float_of_str row τ)) before →
  filter_row float_of_str row τ = Raise e →
  filter_loop float_of_str (before ++ row :: after) τ acc = Raise e.
Proof.
  intros Hbefore Hrow. revert acc.
  induction Hbefore as [|r before [o Ho] _ IH]; intros acc; simpl.
  - by rewrite Hrow.
  - rewrite Ho. simpl. destruct o; apply IH.
Qed.


Lemma float_ge_refl (x : float) : x ≠ S754_nan → float_ge x x = true.
Proof.
  intros Hnan. unfold float_ge, SFleb.
  destruct x as [[]|[]| |[] m e]; simpl; try done;
    by rewrite Z.compare_refl, Pos.compare_cont_refl.
Qed.



(** C2, as amended: when every [confidence_score] is absent or a string
    and every row that reaches the threshold carries a text and a
    label, the filter raises nothing: it returns, in input order, the
    annotations of the rows that reach the threshold, the other rows
    being skipped whatever else they hold. After such rows, a row that
    reaches the threshold and lacks its text, or its label, raises the
    lookup error of that field, and the run ends there. *)
Theorem filter_by_confidence_returns rows τ :
  (Forall confidence_is_text rows →
   Forall (complete_if_confident float_of_str τ) rows →
   filter_by_confidence float_of_str rows τ =
     Ok (omap (accepted_of float_of_str τ) rows)) ∧
  (∀ before (row : raw_record) after x,
     rows = before ++ row :: after →
     Forall confidence_is_text before →
     Forall (complete_if_confident float_of_str τ) before →
     parsed_confidence float_of_str row = Some x → float_ge x τ = true →
     (row !! "text" = None →
      filter_by_confidence float_of_str rows τ = Raise (KeyError "text")) ∧
     (is_Some (row !! "text") → row !! "label" = None →
      filter_by_confidence float_of_str rows τ = Raise (KeyError "label"))).
Proof.
  split.
  - intros Htext Hfull. unfold filter_by_confidence.
    rewrite (filter_loop_returns rows τ (accepted_of float_of_str τ <$> rows) []).
    + simpl. f_equal. clear Htext Hfull.
      induction rows as [|row rows IH]; [done|].
      csimpl. rewrite IH. by destruct (accepted_of float_of_str τ row).
    + apply Forall2_fmap_r, Forall_Forall2_diag.
      apply Forall_forall. intros row Hrow.
      rewrite Forall_forall in Htext, Hfull.
      apply filter_row_accepted_of; auto.
  - intros before row after x -> Htext Hfull Hx Hge.
    assert (Hbefore : Forall (λ row, returns (filter_row float_of_str row τ)) before).
    { apply Forall_forall. intros r Hr.
      rewrite Forall_forall in Htext, Hfull.
      exists (accepted_of float_of_str τ r). apply filter_row_accepted_of; auto. }
    pose proof (filter_row_confident row τ x Hx Hge) as Hrow.
    unfold subscript in Hrow. unfold filter_by_confidence. split.
    + intros Ht. rewrite Ht in Hrow. by apply filter_loop_raises.
    + intros [t Ht] Hl. rewrite Ht, Hl in Hrow. by apply filter_loop_raises.
Qed.

(** C3, where the code departs from it: a row whose [confidence_score]
    is [None], as [csv.DictReader] yields for a short line, is not
    skipped: [float(None)] raises a [TypeError], which the [except]
    clause does not catch, and the run ends there. *)
Theorem filter_by_confidence_short_row_raises rows τ :
  filter_by_confidence float_of_str (short_row :: rows) τ = Raise TypeError.
Proof. reflexivity. Qed.
End Filter.



(** C2 as it was stated fails on the same row: the filter raises
    [KeyError] and the row after it is never looked at. *)
Lemma filter_by_confidence_missing_text_raises :
  filter_by_confidence decimal_float
    [row_without_text; make_row "hello" "alice" "pos" "0.9"]
    CONFIDENCE_THRESHOLD = Raise (KeyError "text") ∧
  ¬ returns (filter_by_confidence decimal_float
    [row_without_text; make_row "hello" "alice" "pos" "0.9"]
    CONFIDENCE_THRESHOLD).
Proof.
  split; [by vm_compute|]. intros [out Hout]. vm_compute in Hout. discriminate.
Qed.

Lemma filter_by_confidence_returns_witness :
  filter_by_confidence decimal_float mixed_rows CONFIDENCE_THRESHOLD =
  Ok [ {| text := PStr "hello"; annotator_id := PStr "alice"; label := PStr "pos";
          confidence_score := S754_finite false 8106479329266893 (-53) |};
       {| text := PStr "world"; annotator_id := PStr "carol"; label := PStr "neg";
          confidence_score := CONFIDENCE_THRESHOLD |} ] ∧
  filter_by_confidence decimal_float (mixed_rows ++ row_without_label :: mixed_rows)
    CONFIDENCE_THRESHOLD = Raise (KeyError "label").
Proof.
  assert (Htext : Forall confidence_is_text mixed_rows).
  { repeat (apply List.Forall_cons; [by vm_compute|]). apply List.Forall_nil. }
  assert (Hfull : Forall (complete_if_confident decimal_float CONFIDENCE_THRESHOLD)
                    mixed_rows).
  { repeat (apply List.Forall_cons;
      [intros x Hx Hge; vm_compute in Hx;
       first [discriminate | injection Hx as <-; vm_compute in Hge; try discriminate];
       split; by vm_compute; eexists|]).
    apply List.Forall_nil. }
  split.
  - rewrite (proj1 (filter_by_confidence_returns decimal_float mixed_rows
                      CONFIDENCE_THRESHOLD)); [by vm_compute|done..].
  - apply (proj2 (filter_by_confidence_returns decimal_float
                    (mixed_rows ++ row_without_label :: mixed_rows)
                    CONFIDENCE_THRESHOLD)
             mixed_rows row_without_label mixed_rows
             (S754_finite false 8106479329266893 (-53)));
      try done; by vm_compute; eexists.
Defined.

(** ** Insertion-ordered dicts and first-seen order *)

Section Filter_facts.
Context {A : Type} (P : A → Prop) `{!∀ x, Decision (P x)}.

Lemma filter_all (l : list A) : Forall P l → filter P l = l.
Proof.
  induction 1 as [|x l Hx _ IH]; [done|].
  by rewrite filter_cons_True, IH.
Qed.

Lemma filter_none (l : list A) : Forall (λ x, ¬ P x) l → filter P l = [].
Proof.
  induction 1 as [|x l Hx _ IH]; [done|].
  by rewrite filter_cons_False.
Qed.
End Filter_facts.

Section FirstSeen.
Context {A : Type} `{EqDecision A}.
Implicit Types l : list A.

Lemma elem_of_first_seen l x : x ∈ first_seen l ↔ x ∈ l.
Proof.
  induction l as [|y l IH]; simpl; [done|].
  rewrite !elem_of_cons, list_elem_of_filter, IH.
  destruct (decide (x = y)); intuition congruence.
Qed.

Lemma NoDup_first_seen l : NoDup (first_seen l).
Proof.
  induction l as [|y l IH]; simpl; [constructor|].
  constructor; [|by apply NoDup_filter].
  rewrite list_elem_of_filter. by intros [? _].
Qed.

(** A new element goes to the end, a known one changes nothing. *)
Lemma first_seen_snoc l x :
  first_seen (l ++ [x]) = if decide (x ∈ l) then first_seen l else first_seen l ++ [x].
Proof.
  induction l as [|y l IH]; simpl; [done|].
  rewrite IH. clear IH.
  destruct (decide (x ∈ l)) as [Hin|Hin], (decide (x ∈ y :: l)) as [Hin'|Hin'].
  - done.
  - destruct Hin'. by right.
  - apply elem_of_cons in Hin' as [->|?]; [|done].
    rewrite filter_app, filter_cons_False, filter_nil by naive_solver.
    by rewrite app_nil_r.
  - rewrite filter_app, filter_cons_True; [done|].
    intros ->. apply Hin'. by left.
Qed.

Lemma first_seen_sublist l : first_seen l `sublist_of` l.
Proof.
  induction l as [|y l IH]; simpl; [done|].
  apply sublist_skip. etrans; [apply sublist_filter|done].
Qed.

Lemma first_seen_NoDup_id l : NoDup l → first_seen l = l.
Proof.
  induction 1 as [|y l Hy _ IH]; simpl; [done|].
  rewrite IH. f_equal. apply filter_all, Forall_forall. by intros x Hx ->.
Qed.
End FirstSeen.

Section Dict.
Context {K V : Type} `{EqDecision K}.

Lemma dict_append_fresh (k : K) (v : V) (d : list (K * list V)) :
  k ∉ d.*1 → dict_append k v d = d ++ [(k, [v])].
Proof.
  induction d as [|[k' vs] d IH]; simpl; [done|].
  rewrite not_elem_of_cons. intros [Hne Hd].
  rewrite decide_False by done. by rewrite IH.
Qed.

Lemma dict_append_known (k : K) (v : V) (d : list (K * list V)) :
  NoDup d.*1 → k ∈ d.*1 →
  dict_append k v d =
    (λ kv, (kv.1, if decide (kv.1 = k) then kv.2 ++ [v] else kv.2)) <$> d.
Proof.
  induction d as [|[k' vs] d IH]; simpl; [by intros _ ?%elem_of_nil|].
  rewrite NoDup_cons, elem_of_cons. intros [Hk' Hd] Hin.
  destruct (decide (k = k')) as [->|Hne].
  - rewrite decide_True by done. f_equal.
    symmetry. rewrite <- (list_fmap_id d) at 2. apply list_fmap_ext.
    intros i [k'' vs'] Hi. simpl.
    rewrite decide_False; [done|]. intros ->. apply Hk'.
    apply list_elem_of_fmap. exists (k', vs'). split; [done|].
    by eapply list_elem_of_lookup_2.
  - rewrite (decide_False (P := k' = k)) by done.
    rewrite IH; [done|done|]. by destruct Hin as [->|].
Qed.

Lemma dict_set_fresh (k : K) (v : V) (d : list (K * V)) :
  k ∉ d.*1 → dict_set k v d = d ++ [(k, v)].
Proof.
  induction d as [|[k' v'] d IH]; simpl; [done|].
  rewrite not_elem_of_cons. intros [Hne Hd].
  rewrite decide_False by done. by rewrite IH.
Qed.
End Dict.

(** ** The grouper *)

Section Grouper.
Implicit Types anns : list annotation.

(** The annotations of a text, in input order. *)
Local Abbreviation members_of anns := (λ k, filter (λ a, text a = k) anns).

Lemma group_by_text_snoc anns a :
  group_by_text (anns ++ [a]) = dict_append (text a) a (group_by_text anns).
Proof. unfold group_by_text. by rewrite foldl_app. Qed.

(** The grouping in closed form: one entry per text, texts in
    first-seen order, each with its annotations in input order. *)
Lemma group_by_text_closed_form anns :
  group_by_text anns =
    (λ k, (k, members_of anns k)) <$> first_seen (text <$> anns).
Proof.
  induction anns as [|a anns IH] using rev_ind; [done|].
  rewrite group_by_text_snoc, IH, fmap_app.
  change (text <$> [a]) with [text a]. rewrite first_seen_snoc.
  assert (Hkeys : ((λ k, (k, members_of anns k)) <$> first_seen (text <$> anns)).*1
                  = first_seen (text <$> anns)).
  { rewrite <- list_fmap_compose. apply list_fmap_id. }
  case_decide as Hin.
  - rewrite dict_append_known;
      [|rewrite Hkeys; apply NoDup_first_seen|by rewrite Hkeys, elem_of_first_seen].
    rewrite <- list_fmap_compose. apply list_fmap_ext. intros i k _. simpl.
    rewrite filter_app. f_equal. case_decide as Hk.
    + by rewrite filter_cons_True.
    + rewrite filter_cons_False by done. by rewrite app_nil_r.
  - rewrite dict_append_fresh by (by rewrite Hkeys, elem_of_first_seen).
    rewrite fmap_app. simpl. f_equal.
    + apply list_fmap_ext. intros i k Hk. simpl.
      rewrite filter_app, filter_cons_False, app_nil_r; [done|].
      intros Heq. apply Hin. rewrite Heq.
      apply elem_of_first_seen. by eapply list_elem_of_lookup_2.
    + rewrite filter_app, filter_cons_True by done.
      rewrite filter_none; [done|]. apply Forall_forall.
      intros a' Ha' Heq. apply Hin. rewrite <- Heq. by apply list_elem_of_fmap_2.
Qed.

Lemma group_by_text_keys anns :
  (group_by_text anns).*1 = first_seen (text <$> anns).
Proof.
  rewrite group_by_text_closed_form, <- list_fmap_compose. apply list_fmap_id.
Qed.

Lemma elem_of_group_by_text anns k members :
  (k, members) ∈ group_by_text anns ↔
  k ∈ text <$> anns ∧ members = members_of anns k.
Proof.
  rewrite group_by_text_closed_form, list_elem_of_fmap. split.
  - intros (k' & [= -> ->] & Hk). by rewrite elem_of_first_seen in Hk.
  - intros [Hk ->]. exists k. by rewrite elem_of_first_seen.
Qed.

Lemma group_by_text_keys_NoDup anns : NoDup (group_by_text anns).*1.
Proof. rewrite group_by_text_keys. apply NoDup_first_seen. Qed.

Lemma group_by_text_group_nonempty anns k members :
  (k, members) ∈ group_by_text anns → members ≠ [].
Proof.
  intros [Hk ->]%elem_of_group_by_text.
  apply list_elem_of_fmap in Hk as (a & -> & Ha).
  intros Hnil. apply (filter_nil_not_elem_of _ _ a) in Hnil; done.
Qed.

(** The annotations whose text is in a duplicate-free list of texts
    are those of the first text followed by those of the others, up to
    order. *)
Lemma concat_members_Permutation anns (ks : list pyval) :
  NoDup ks →
  concat (members_of anns <$> ks) ≡ₚ filter (λ a, text a ∈ ks) anns.
Proof.
  induction 1 as [|k ks Hk _ IH]; simpl.
  - rewrite filter_none; [done|]. apply Forall_forall. intros a _. apply not_elem_of_nil.
  - rewrite IH. clear IH. induction anns as [|a anns IH]; [done|].
    rewrite !filter_cons.
    destruct (decide (text a = k)) as [Heq|Hne],
      (decide (text a ∈ ks)) as [Hin|Hin],
      (decide (text a ∈ k :: ks)) as [Hin'|Hin']; simpl.
    + destruct Hk. by rewrite <- Heq.
    + destruct Hk. by rewrite <- Heq.
    + by rewrite IH.
    + destruct Hin'. rewrite Heq. by left.
    + by rewrite <- Permutation_middle, IH.
    + destruct Hin'. by right.
    + by apply elem_of_cons in Hin' as [?|?].
    + done.
Qed.

(** C6: the grouper partitions the accepted annotations by their text.
    The keys are distinct and in first-seen order; the group of a text
    holds exactly the annotations with that text, in input order, and
    is not empty; every annotation is in the group of its own text and
    in no other; the groups together are the input, nothing lost and
    nothing repeated. *)
Theorem group_by_text_partition anns :
  NoDup (group_by_text anns).*1 ∧
  (group_by_text anns).*1 = first_seen (text <$> anns) ∧
  (∀ k members, (k, members) ∈ group_by_text anns →
     members = filter (λ a, text a = k) anns ∧ members ≠ []) ∧
  (∀ a, a ∈ anns →
     ∃ members, (text a, members) ∈ group_by_text anns ∧ a ∈ members ∧
       ∀ k ms, (k, ms) ∈ group_by_text anns → a ∈ ms → k = text a ∧ ms = members) ∧
  concat (group_by_text anns).*2 ≡ₚ anns.
Proof.
  split_and!.
  - apply group_by_text_keys_NoDup.
  - apply group_by_text_keys.
  - intros k members Hin. split; [|by eapply group_by_text_group_nonempty].
    by apply elem_of_group_by_text in Hin as [_ ->].
  - intros a Ha. exists (members_of anns (text a)). split_and!.
    + apply elem_of_group_by_text. split; [|done]. by apply list_elem_of_fmap_2.
    + by apply list_elem_of_filter.
    + intros k ms [_ ->]%elem_of_group_by_text [Heq _]%list_elem_of_filter.
      by subst k.
  - rewrite group_by_text_closed_form, <- list_fmap_compose.
    etrans; [apply (concat_members_Permutation anns), NoDup_first_seen|].
    rewrite filter_all; [done|]. apply Forall_forall. intros a Ha.
    apply elem_of_first_seen. by apply list_elem_of_fmap_2.
Qed.
End Grouper.

(** ** QC2: the agreement resolver *)

Lemma NoDup_fst_unique {K V} (d : list (K * V)) k v1 v2 :
  NoDup d.*1 → (k, v1) ∈ d → (k, v2) ∈ d → v1 = v2.
Proof.
  induction d as [|[k' v'] d IH]; csimpl; [by intros _ ?%elem_of_nil|].
  rewrite NoDup_cons, !elem_of_cons. intros [Hk' Hd] [H1|H1] [H2|H2].
  - congruence.
  - injection H1 as -> ->. destruct Hk'. by apply (list_elem_of_fmap_2 fst _ (k', v2)).
  - injection H2 as -> ->. destruct Hk'. by apply (list_elem_of_fmap_2 fst _ (k', v1)).
  - by apply IH.
Qed.

Section Resolver.
Variable set_of : list pyval → list pyval.
Implicit Types g : list (pyval * list annotation).

(** A group goes to exactly one side. *)
Lemma entry_cases item :
  (∃ l, set_of (label <$> item.2) = [l] ∧
        agreed_entry set_of item = Some (item.1, l) ∧ disagreement_entry set_of item = None) ∨
  (length (set_of (label <$> item.2)) ≠ 1 ∧
   agreed_entry set_of item = None ∧
   disagreement_entry set_of item = Some (item.1, set_of (label <$> item.2))).
Proof.
  unfold agreed_entry, disagreement_entry.
  destruct (set_of (label <$> item.2)) as [|l [|l' ls]]; [right|left|right];
    eauto.
Qed.

Lemma agreed_entries_keys g t :
  t ∈ (omap (agreed_entry set_of) g).*1 → t ∈ g.*1.
Proof.
  intros ([t' l] & -> & (item & Hitem & Hentry)%list_elem_of_omap)%list_elem_of_fmap.
  destruct (entry_cases item) as [(l' & _ & Ha & _)|(_ & Ha & _)];
    rewrite Ha in Hentry; [|done].
  injection Hentry as <- <-. simpl. by apply (list_elem_of_fmap_2 fst g item).
Qed.

(** The two results in closed form, for a dict (no key twice). *)
Lemma apply_agreement_check_closed_form g :
  NoDup g.*1 →
  apply_agreement_check set_of g = (omap (agreed_entry set_of) g, omap (disagreement_entry set_of) g).
Proof.
  unfold apply_agreement_check.
  induction g as [|item g IH] using rev_ind; [done|].
  rewrite fmap_app, NoDup_app. intros (Hg & Hfresh & _).
  rewrite foldl_app, IH, !omap_app by done. simpl.
  unfold agreement_step. simpl.
  destruct (entry_cases item) as [(l & Hl & Ha & Hd)|(Hlen & Ha & Hd)];
    rewrite Ha, Hd; simpl.
  - rewrite Hl, app_nil_r, dict_set_fresh; [done|].
    intros Hin%agreed_entries_keys. apply (Hfresh _ Hin). simpl. by left.
  - rewrite app_nil_r.
    destruct (set_of (label <$> item.2)) as [|l [|l' ls]]; done.
Qed.

Lemma elem_of_agreed g t l :
  NoDup g.*1 →
  (t, l) ∈ (apply_agreement_check set_of g).1 ↔ ∃ anns, (t, anns) ∈ g ∧ set_of (label <$> anns) = [l].
Proof.
  intros Hg. rewrite apply_agreement_check_closed_form by done. simpl.
  rewrite list_elem_of_omap. split.
  - intros ([t' anns] & Hin & Hentry).
    destruct (entry_cases (t', anns)) as [(l' & Hl & Ha & _)|(_ & Ha & _)];
      rewrite Ha in Hentry; [|done].
    injection Hentry as <- <-. by exists anns.
  - intros (anns & Hin & Hl). exists (t, anns). split; [done|].
    unfold agreed_entry. simpl. by rewrite Hl.
Qed.

Lemma elem_of_disagreements g t labels :
  NoDup g.*1 →
  (t, labels) ∈ (apply_agreement_check set_of g).2 ↔
  ∃ anns, (t, anns) ∈ g ∧ set_of (label <$> anns) = labels ∧ length labels ≠ 1.
Proof.
  intros Hg. rewrite apply_agreement_check_closed_form by done. simpl.
  rewrite list_elem_of_omap. split.
  - intros ([t' anns] & Hin & Hentry).
    destruct (entry_cases (t', anns)) as [(l' & _ & _ & Hd)|(Hlen & _ & Hd)];
      rewrite Hd in Hentry; [done|].
    injection Hentry as <- <-. by exists anns.
  - intros (anns & Hin & <- & Hlen). exists (t, anns). split; [done|].
    destruct (entry_cases (t, anns)) as [(l' & Hl & _)|(_ & _ & Hd)]; [|done].
    simpl in Hl. by rewrite Hl in Hlen.
Qed.

Lemma agreed_key_iff g t anns :
  NoDup g.*1 → (t, anns) ∈ g →
  t ∈ (apply_agreement_check set_of g).1.*1 ↔ length (set_of (label <$> anns)) = 1.
Proof.
  intros Hg Hin. rewrite list_elem_of_fmap. split.
  - intros ([t' l] & -> & (anns' & Hin' & Hl)%elem_of_agreed); [|done].
    simpl in Hin. rewrite (NoDup_fst_unique g t' anns anns') by done.
    by rewrite Hl.
  - intros Hlen.
    destruct (set_of (label <$> anns)) as [|l [|l' ls]] eqn:Hl; try done.
    exists (t, l). split; [done|]. apply elem_of_agreed; eauto.
Qed.

Lemma disagreement_key_iff g t anns :
  NoDup g.*1 → (t, anns) ∈ g →
  t ∈ (apply_agreement_check set_of g).2.*1 ↔ length (set_of (label <$> anns)) ≠ 1.
Proof.
  intros Hg Hin. rewrite list_elem_of_fmap. split.
  - intros ([t' ls] & -> & (anns' & Hin' & Hl & Hlen)%elem_of_disagreements);
      [|done].
    simpl in Hin. rewrite (NoDup_fst_unique g t' anns anns') by done.
    by rewrite Hl.
  - intros Hlen. exists (t, set_of (label <$> anns)). split; [done|].
    apply elem_of_disagreements; eauto.
Qed.

Lemma omap_keys_sublist {V W} (f : pyval * V → option (pyval * W))
    (d : list (pyval * V)) :
  (∀ item y, f item = Some y → y.1 = item.1) →
  (omap f d).*1 `sublist_of` d.*1.
Proof.
  intros Hf. induction d as [|item d IH]; csimpl; [done|].
  destruct (f item) as [y|] eqn:Hy; csimpl.
  - rewrite (Hf _ _ Hy). by apply sublist_skip.
  - by apply sublist_cons.
Qed.

Lemma agreed_keys_sublist g :
  NoDup g.*1 → (apply_agreement_check set_of g).1.*1 `sublist_of` g.*1.
Proof.
  intros Hg. rewrite apply_agreement_check_closed_form by done.
  apply omap_keys_sublist. intros item y Hy.
  destruct (entry_cases item) as [(l & _ & Ha & _)|(_ & Ha & _)];
    rewrite Ha in Hy; [|done].
  by injection Hy as <-.
Qed.

Lemma disagreement_keys_sublist g :
  NoDup g.*1 → (apply_agreement_check set_of g).2.*1 `sublist_of` g.*1.
Proof.
  intros Hg. rewrite apply_agreement_check_closed_form by done.
  apply omap_keys_sublist. intros item y Hy.
  destruct (entry_cases item) as [(l & _ & _ & Hd)|(_ & _ & Hd)];
    rewrite Hd in Hy; [done|].
  by injection Hy as <-.
Qed.

Lemma key_has_group g t : t ∈ g.*1 → ∃ anns, (t, anns) ∈ g.
Proof.
  intros ([t' anns] & -> & Hin)%list_elem_of_fmap. by exists anns.
Qed.

(** C4: in a grouping (a dict: no text twice) every text ends in
    exactly one of the two results of the resolver: it is a key of the
    agreed samples or the text of a disagreement, never both, and it
    occurs there once; the results hold no other text. *)
Theorem agreement_check_exclusive g :
  NoDup g.*1 →
  (∀ t, t ∈ g.*1 →
     (t ∈ (apply_agreement_check set_of g).1.*1 ∧ t ∉ (apply_agreement_check set_of g).2.*1) ∨
     ((t ∉ (apply_agreement_check set_of g).1.*1) ∧ t ∈ (apply_agreement_check set_of g).2.*1)) ∧
  NoDup ((apply_agreement_check set_of g).1.*1 ++ (apply_agreement_check set_of g).2.*1) ∧
  (∀ t, t ∈ (apply_agreement_check set_of g).1.*1 ++ (apply_agreement_check set_of g).2.*1 → t ∈ g.*1).
Proof.
  intros Hg.
  assert (Hsplit : ∀ t, t ∈ g.*1 →
    (t ∈ (apply_agreement_check set_of g).1.*1 ∧ t ∉ (apply_agreement_check set_of g).2.*1) ∨
    ((t ∉ (apply_agreement_check set_of g).1.*1) ∧ t ∈ (apply_agreement_check set_of g).2.*1)).
  { intros t [anns Hin]%key_has_group.
    rewrite (agreed_key_iff g t anns), (disagreement_key_iff g t anns) by done.
    destruct (decide (length (set_of (label <$> anns)) = 1)); [left|right]; auto. }
  assert (Hsub : ∀ t, t ∈ (apply_agreement_check set_of g).1.*1 ++ (apply_agreement_check set_of g).2.*1 → t ∈ g.*1).
  { intros t [Hin|Hin]%elem_of_app.
    - by eapply elem_of_sublist; [|apply agreed_keys_sublist].
    - by eapply elem_of_sublist; [|apply disagreement_keys_sublist]. }
  split_and!; [done| |done].
  apply NoDup_app. split_and!.
  - by eapply sublist_NoDup; [|apply agreed_keys_sublist].
  - intros t Ha Hd.
    destruct (Hsplit t) as [[_ ?]|[? _]]; [|done..].
    apply Hsub, elem_of_app. by left.
  - by eapply sublist_NoDup; [|apply disagreement_keys_sublist].
Qed.

(** With an iteration order that lists every label once, the set
    iterates over as many elements as there are distinct labels. *)
Lemma set_of_length (l : list pyval) :
  set_order set_of → length (set_of l) = size (list_to_set l : gset pyval).
Proof.
  intros Hset. destruct (Hset l) as [Hnodup Helem].
  rewrite <- (size_list_to_set (C := gset pyval)) by done.
  f_equal. apply set_eq. intros x. by rewrite !elem_of_list_to_set.
Qed.

Lemma set_of_elements (l : list pyval) :
  set_order set_of → list_to_set (set_of l) = (list_to_set l : gset pyval).
Proof.
  intros Hset. destruct (Hset l) as [_ Helem].
  apply set_eq. intros x. by rewrite !elem_of_list_to_set.
Qed.

(** C5: for a grouping whose groups are not empty, a text is among the
    agreed samples exactly when its group has one distinct label, and
    among the disagreements exactly when it has two or more; an agreed
    sample carries that one label, a disagreement carries the set of
    the distinct labels of its group, which has two elements or more; a
    group of a single annotation agrees on its label. *)
Theorem agreement_check_by_cardinality g :
  set_order set_of → NoDup g.*1 → Forall (λ item, item.2 ≠ []) g →
  (∀ t anns, (t, anns) ∈ g →
     (t ∈ (apply_agreement_check set_of g).1.*1 ↔ size (label_set anns) = 1) ∧
     (t ∈ (apply_agreement_check set_of g).2.*1 ↔ 2 ≤ size (label_set anns))) ∧
  (∀ t l, (t, l) ∈ (apply_agreement_check set_of g).1 →
     ∃ anns, (t, anns) ∈ g ∧ label_set anns = {[ l ]}) ∧
  (∀ t labels, (t, labels) ∈ (apply_agreement_check set_of g).2 →
     2 ≤ length labels ∧ NoDup labels ∧
     ∃ anns, (t, anns) ∈ g ∧ list_to_set labels = label_set anns) ∧
  (∀ t a, (t, [a]) ∈ g → (t, label a) ∈ (apply_agreement_check set_of g).1).
Proof.
  intros Hset Hg Hfull.
  assert (Hpos : ∀ t anns, (t, anns) ∈ g → 0 < size (label_set anns)).
  { intros t anns Hin. rewrite Forall_forall in Hfull.
    specialize (Hfull _ Hin). simpl in Hfull.
    destruct anns as [|a anns]; [done|].
    assert (size (label_set (a :: anns)) ≠ 0); [|lia].
    rewrite size_non_empty_iff. unfold label_set. csimpl. set_solver. }
  split_and!.
  - intros t anns Hin.
    rewrite (agreed_key_iff g t anns), (disagreement_key_iff g t anns) by done.
    rewrite set_of_length by done. fold (label_set anns).
    specialize (Hpos t anns Hin). lia.
  - intros t l (anns & Hin & Hl)%elem_of_agreed; [|done].
    exists anns. split; [done|].
    unfold label_set. rewrite <- set_of_elements, Hl by done. simpl.
    by rewrite union_empty_r_L.
  - intros t labels (anns & Hin & <- & Hlen)%elem_of_disagreements; [|done].
    split_and!.
    + rewrite set_of_length in * by done.
      specialize (Hpos t anns Hin). unfold label_set in Hpos. lia.
    + apply Hset.
    + exists anns. split; [done|]. by apply set_of_elements.
  - intros t a Hin. apply elem_of_agreed; [done|].
    exists [a]. split; [done|]. csimpl.
    destruct (Hset [label a]) as [Hnodup Helem].
    destruct (set_of [label a]) as [|l [|l' ls]] eqn:Hl.
    + specialize (Helem (label a)). rewrite list_elem_of_singleton in Helem.
      by apply proj2, elem_of_nil in Helem.
    + f_equal. symmetry. apply list_elem_of_singleton, Helem. by left.
    + apply NoDup_cons in Hnodup as [Hne _].
      destruct Hne. assert (l = label a) as ->
        by (apply list_elem_of_singleton, Helem; by left).
      assert (l' = label a) as ->
        by (apply list_elem_of_singleton, Helem; right; by left).
      by left.
Qed.
End Resolver.

(** ** The output writer *)

Section Strings.
Implicit Types s : string.
Local Arguments String.append !_ _ / : simpl nomatch.

Lemma string_app_nil_r s : s +:+ EmptyString = s.
Proof. induction s as [|c s IH]; simpl; [done|]. by rewrite IH. Qed.

Lemma string_app_assoc s1 s2 s3 : (s1 +:+ s2) +:+ s3 = s1 +:+ (s2 +:+ s3).
Proof. induction s1 as [|c s1 IH]; simpl; [done|]. by rewrite IH. Qed.

Lemma list_ascii_of_string_app s1 s2 :
  String.list_ascii_of_string (s1 +:+ s2) = String.list_ascii_of_string s1 ++ String.list_ascii_of_string s2.
Proof. induction s1 as [|c s1 IH]; simpl; [done|]. by rewrite IH. Qed.

Lemma file_of_lines_app (l1 l2 : list string) :
  file_of_lines (l1 ++ l2) = file_of_lines l1 +:+ file_of_lines l2.
Proof.
  induction l1 as [|x l1 IH]; simpl; [done|].
  by rewrite IH, string_app_assoc.
Qed.

(** Appending line after line builds the file of these lines. *)
Lemma foldl_write {A} (line : A → string) (items : list A) (written : string) :
  foldl (λ f item, f +:+ line item) written items =
  written +:+ file_of_lines (line <$> items).
Proof.
  revert written. induction items as [|x items IH]; intros written; simpl.
  - by rewrite string_app_nil_r.
  - by rewrite IH, string_app_assoc.
Qed.
End Strings.

Section Report.
Lemma all_str_strings (ls : list string) : all_str (PStr <$> ls) = Ok ls.
Proof. induction ls as [|x ls IH]; csimpl; [done|]. by rewrite IH. Qed.

Lemma all_str_inv (l : list pyval) ss : all_str l = Ok ss → l = PStr <$> ss.
Proof.
  revert ss. induction l as [|[|s] l IH]; intros ss; simpl.
  - by intros [= <-].
  - done.
  - destruct (all_str l) as [ss'|]; simpl; [|done].
    intros [= <-]. csimpl. by rewrite <- IH.
Qed.

Lemma all_str_raises (l : list pyval) e : all_str l = Raise e → e = TypeError ∧ PNone ∈ l.
Proof.
  induction l as [|[|s] l IH]; simpl; [done| |].
  - intros [= <-]. split; [done|by left].
  - destruct (all_str l) as [ss'|e']; simpl; [done|].
    intros [= <-]. destruct IH as [-> ?]; [done|]. split; [done|by right].
Qed.

Lemma merge_sort_short (ls : list string) :
  length ls < 2 → merge_sort String.le ls = ls.
Proof. destruct ls as [|x [|y ls]]; simpl; [done..|lia]. Qed.

Lemma py_sorted_strings (ls : list string) :
  py_sorted (PStr <$> ls) = Ok (PStr <$> merge_sort String.le ls).
Proof.
  destruct ls as [|x [|y ls]]; [done..|].
  unfold py_sorted. change (PStr <$> x :: y :: ls) with (PStr x :: PStr y :: (PStr <$> ls)).
  change (PStr x :: PStr y :: (PStr <$> ls)) with (PStr <$> x :: y :: ls).
  by rewrite all_str_strings.
Qed.

(** The line of a disagreement between strings. *)
Lemma log_line_strings (d : string * list string) :
  log_line (str_disagreement d) =
  Ok ("TEXT: " +:+ d.1 +:+ " | LABELS: " +:+
      String.concat ", " (merge_sort String.le d.2) +:+ newline).
Proof.
  unfold log_line, str_disagreement. simpl.
  rewrite py_sorted_strings. simpl.
  unfold py_join. by rewrite all_str_strings.
Qed.

Lemma write_log_returns ds lines written :
  Forall2 (λ d line, log_line d = Ok line) ds lines →
  write_log ds written = (written +:+ file_of_lines lines, None).
Proof.
  intros H. revert written.
  induction H as [|d line ds lines Hd _ IH]; intros written; simpl.
  - by rewrite string_app_nil_r.
  - by rewrite Hd, IH, string_app_assoc.
Qed.

(** In general the report holds the lines of the disagreements that
    come before the first one whose line cannot be formatted. *)
Lemma write_log_prefix ds written :
  ∃ done_ lines,
    done_ `prefix_of` ds ∧
    Forall2 (λ d line, log_line d = Ok line) done_ lines ∧
    (write_log ds written).1 = written +:+ file_of_lines lines ∧
    ((write_log ds written).2 = None → done_ = ds).
Proof.
  revert written. induction ds as [|d ds IH]; intros written; simpl.
  - exists [], []. split_and!; [done|constructor|by rewrite string_app_nil_r|done].
  - destruct (log_line d) as [line|e] eqn:Hd.
    + destruct (IH (written +:+ line)) as (done_ & lines & Hpre & Hlines & Hfile & Hall).
      exists (d :: done_), (line :: lines). split_and!.
      * by apply prefix_cons.
      * by constructor.
      * by rewrite Hfile, string_app_assoc.
      * intros Hnone. by rewrite Hall.
    + exists [], []. split_and!;
        [apply prefix_nil|constructor|by rewrite string_app_nil_r|done].
Qed.

End Report.

Section Clean.
Local Arguments String.append !_ _ / : simpl nomatch.

Lemma json_escape_char_one_line (c : ascii) :
  "010"%char ∉ String.list_ascii_of_string (json_escape_char c).
Proof.
  destruct c as [[] [] [] [] [] [] [] []]; compute_done.
Qed.

Lemma json_escape_one_line (s : string) :
  "010"%char ∉ String.list_ascii_of_string (json_escape s).
Proof.
  induction s as [|c s IH]; simpl; [apply not_elem_of_nil|].
  rewrite list_ascii_of_string_app, elem_of_app.
  intros [?|?]; [by eapply json_escape_char_one_line|done].
Qed.

Local Ltac unfold_elem_of :=
  rewrite ?list_ascii_of_string_app; simpl;
  repeat first [rewrite elem_of_cons | rewrite elem_of_app | rewrite elem_of_nil].

Lemma json_dumps_value_one_line (v : pyval) :
  "010"%char ∉ String.list_ascii_of_string (json_dumps_value v).
Proof.
  destruct v as [|s]; unfold json_dumps_value; unfold_elem_of.
  - intuition discriminate.
  - pose proof (json_escape_one_line s). intuition discriminate.
Qed.

(** A record takes one line, whatever its text and its label hold. *)
Lemma json_dumps_record_one_line (t l : pyval) :
  "010"%char ∉ String.list_ascii_of_string (json_dumps_record t l).
Proof.
  unfold json_dumps_record. unfold_elem_of.
  pose proof (json_dumps_value_one_line t).
  pose proof (json_dumps_value_one_line l).
  intuition discriminate.
Qed.

Lemma read_json_string_escape_char (c : ascii) (tail : string) :
  read_json_string (json_escape_char c +:+ tail) =
  push_char c (read_json_string tail).
Proof. destruct c as [[] [] [] [] [] [] [] []]; reflexivity. Qed.

(** An escaped string followed by a quote reads back as the string. *)
Lemma read_json_string_escape (s rest : string) :
  read_json_string (json_escape s +:+ dquote +:+ rest) = Some (s, rest).
Proof.
  induction s as [|c s IH]; [done|].
  change (json_escape (String c s)) with (json_escape_char c +:+ json_escape s).
  by rewrite string_app_assoc, read_json_string_escape_char, IH.
Qed.

Lemma strip_prefix_app (p s : string) : strip_prefix p (p +:+ s) = Some s.
Proof.
  induction p as [|c p IH]; simpl; [by destruct s|].
  by rewrite decide_True.
Qed.

Lemma clean_line_shape (t l : string) :
  clean_line (str_sample (t, l)) =
  text_prefix +:+ json_escape t +:+ dquote +:+
  label_prefix +:+ json_escape l +:+ dquote +:+ "}" +:+ newline.
Proof.
  unfold clean_line, str_sample, json_dumps_record, json_dumps_value,
    text_prefix, label_prefix.
  cbn [fst snd]. by rewrite !string_app_assoc.
Qed.

(** A line of a sample between strings reads back as the sample. *)
Lemma read_clean_line_written (sample : string * string) :
  read_clean_line (clean_line (str_sample sample)) = Some sample.
Proof.
  destruct sample as [t l]. rewrite clean_line_shape. unfold read_clean_line.
  rewrite strip_prefix_app. cbn [mbind option_bind].
  rewrite read_json_string_escape. cbn [mbind option_bind].
  rewrite strip_prefix_app. cbn [mbind option_bind].
  rewrite read_json_string_escape. cbn [mbind option_bind].
  by rewrite decide_True.
Qed.

(** C8: the clean data set holds one line per agreed sample, in their
    order; a line is the record of the sample, with the two fields
    [text] and [label] and nothing else, followed by a line feed; the
    record itself holds no line feed, and the line read on its own gives
    the sample back. *)
Theorem clean_dataset_format (samples : list (string * string)) disagreements :
  ∃ lines,
    clean_training_dataset (write_outputs (str_sample <$> samples) disagreements) =
      Some (file_of_lines lines) ∧
    Forall2 (λ sample line, ∃ record,
               line = record +:+ newline ∧
               record = "{" +:+ dquote +:+ "text" +:+ dquote +:+ ": " +:+
                        dquote +:+ json_escape sample.1 +:+ dquote +:+ ", " +:+
                        dquote +:+ "label" +:+ dquote +:+ ": " +:+
                        dquote +:+ json_escape sample.2 +:+ dquote +:+ "}" ∧
               ("010"%char ∉ String.list_ascii_of_string record) ∧
               read_clean_line line = Some sample) samples lines.
Proof.
  exists (clean_line <$> (str_sample <$> samples)). split.
  - unfold write_outputs. destruct (write_log _ _). simpl. by rewrite foldl_write.
  - rewrite <- list_fmap_compose.
    apply Forall2_fmap_r, Forall_Forall2_diag, Forall_forall.
    intros [t l] _. exists (json_dumps_record (PStr t) (PStr l)).
    split_and!; [done| |apply json_dumps_record_one_line|].
    + unfold json_dumps_record. simpl. by rewrite !string_app_assoc.
    + apply (read_clean_line_written (t, l)).
Qed.
End Clean.

(** ** The whole run *)

Section Order_of_iteration.
Variables s1 s2 : list pyval → list pyval.
Hypothesis Hs1 : set_order s1.
Hypothesis Hs2 : set_order s2.

Lemma set_order_Permutation l : s1 l ≡ₚ s2 l.
Proof.
  destruct (Hs1 l) as [Hn1 He1], (Hs2 l) as [Hn2 He2].
  apply NoDup_Permutation; [done..|]. intros x. by rewrite He1, He2.
Qed.

Lemma agreed_entry_same item : agreed_entry s1 item = agreed_entry s2 item.
Proof.
  unfold agreed_entry.
  pose proof (set_order_Permutation (label <$> item.2)) as Hperm.
  destruct (s1 (label <$> item.2)) as [|l1 [|l1' ls1]].
  - apply Permutation_nil_l in Hperm as <-. done.
  - apply Permutation_singleton_l in Hperm as <-. done.
  - destruct (s2 (label <$> item.2)) as [|l2 [|l2' ls2]]; [done| |done].
    by apply Permutation_length in Hperm.
Qed.

Lemma disagreement_entry_same item :
  option_Forall2 same_disagreement
    (disagreement_entry s1 item) (disagreement_entry s2 item).
Proof.
  unfold disagreement_entry.
  pose proof (set_order_Permutation (label <$> item.2)) as Hperm.
  destruct (s1 (label <$> item.2)) as [|l1 [|l1' ls1]].
  - apply Permutation_nil_l in Hperm as <-. by constructor.
  - apply Permutation_singleton_l in Hperm as <-. constructor.
  - destruct (s2 (label <$> item.2)) as [|l2 [|l2' ls2]].
    + by apply Permutation_length in Hperm.
    + by apply Permutation_length in Hperm.
    + by constructor.
Qed.

Lemma disagreement_entries_same g :
  Forall2 same_disagreement
    (omap (disagreement_entry s1) g) (omap (disagreement_entry s2) g).
Proof.
  induction g as [|item g IH]; csimpl; [constructor|].
  destruct (disagreement_entry_same item); [by constructor|done].
Qed.
End Order_of_iteration.

Section Sorting.
Lemma all_str_cases (l : list pyval) :
  all_str l =
    if decide (PNone ∈ l) then Raise TypeError else Ok (omap pyval_to_option l).
Proof.
  induction l as [|[|s] l IH]; [done|done|].
  simpl. rewrite IH.
  destruct (decide (PNone ∈ l)) as [Hin|Hin],
    (decide (PNone ∈ PStr s :: l)) as [Hin'|Hin']; simpl; try done.
  - destruct Hin'. by right.
  - by apply elem_of_cons in Hin' as [?|?].
Qed.

Lemma merge_sort_Permutation_eq (l1 l2 : list string) :
  l1 ≡ₚ l2 → merge_sort String.le l1 = merge_sort String.le l2.
Proof.
  intros Hperm. apply (Sorted_unique String.le).
  - apply (Sorted_merge_sort _).
  - apply (Sorted_merge_sort _).
  - by rewrite !merge_sort_Permutation.
Qed.

(** [sorted] does not depend on the order in which it receives its
    elements: same result, or [TypeError] both times. *)
Lemma py_sorted_Permutation (l1 l2 : list pyval) :
  l1 ≡ₚ l2 → py_sorted l1 = py_sorted l2.
Proof.
  intros Hperm.
  destruct l1 as [|x1 [|y1 l1]].
  - apply Permutation_nil_l in Hperm as <-. done.
  - apply Permutation_singleton_l in Hperm as <-. done.
  - destruct l2 as [|x2 [|y2 l2]];
      [by apply Permutation_length in Hperm..|].
    unfold py_sorted. rewrite !all_str_cases.
    destruct (decide (PNone ∈ x1 :: y1 :: l1)) as [Hin|Hin].
    + rewrite decide_True; [done|]. by rewrite <- Hperm.
    + rewrite decide_False by (by rewrite <- Hperm). cbn [rbind].
      do 2 f_equal. apply merge_sort_Permutation_eq.
      exact (omap_Permutation pyval_to_option _ _ Hperm).
Qed.

Lemma log_line_same d1 d2 : same_disagreement d1 d2 → log_line d1 = log_line d2.
Proof.
  intros [Ht Hl]. unfold log_line.
  by rewrite Ht, (py_sorted_Permutation _ _ Hl).
Qed.

Lemma write_log_same ds1 ds2 written :
  Forall2 same_disagreement ds1 ds2 →
  write_log ds1 written = write_log ds2 written.
Proof.
  intros H. revert written.
  induction H as [|d1 d2 ds1 ds2 Hd _ IH]; intros written; simpl; [done|].
  rewrite (log_line_same _ _ Hd). destruct (log_line d2); [apply IH|done].
Qed.
End Sorting.

Section Run.
Variable float_of_str : string → option float.
Variable csv_DictReader : string → result (list raw_record).

(** C9: the bytes of the two files, and the exception if there is one,
    are determined by the rows and the threshold (by the content of the
    input file, for [main]): they are the same for any two orders in
    which the sets of labels may be iterated. *)
Theorem main_deterministic (s1 s2 : list pyval → list pyval) :
  set_order s1 → set_order s2 →
  (∀ rows τ, process float_of_str s1 rows τ = process float_of_str s2 rows τ) ∧
  (∀ input, main float_of_str s1 csv_DictReader input =
            main float_of_str s2 csv_DictReader input).
Proof.
  intros Hs1 Hs2.
  assert (Hprocess : ∀ rows τ,
    process float_of_str s1 rows τ = process float_of_str s2 rows τ).
  { intros rows τ. unfold process.
    destruct (filter_by_confidence float_of_str rows τ) as [anns|e]; [|done].
    pose proof (group_by_text_keys_NoDup anns) as Hkeys.
    rewrite !apply_agreement_check_closed_form by done.
    unfold write_outputs.
    rewrite (list_omap_ext (agreed_entry s1) (agreed_entry s2)
               (group_by_text anns) (group_by_text anns)).
    - rewrite (write_log_same _ _ EmptyString
                 (disagreement_entries_same s1 s2 Hs1 Hs2 (group_by_text anns))).
      done.
    - apply Forall_Forall2_diag, Forall_forall. intros item _.
      by apply agreed_entry_same. }
  split; [done|].
  intros input. unfold main.
  destruct (read_raw_annotations csv_DictReader input); [apply Hprocess|done].
Qed.

(** C10: with the accepted annotations [anns], the keys of the agreed
    samples and the texts of the disagreements follow the order in
    which the texts are first seen in [anns]; the clean data set is the
    lines of the agreed samples in that order, and the report is the
    lines of the disagreements in that order (all of them unless a
    line raises, then those before it). *)
Theorem outputs_in_first_seen_order (set_of : list pyval → list pyval) anns :
  (apply_agreement_check set_of (group_by_text anns)).1.*1
    `sublist_of` first_seen (text <$> anns) ∧
  (apply_agreement_check set_of (group_by_text anns)).2.*1
    `sublist_of` first_seen (text <$> anns) ∧
  clean_training_dataset
    (write_outputs (apply_agreement_check set_of (group_by_text anns)).1
                   (apply_agreement_check set_of (group_by_text anns)).2) =
    Some (file_of_lines
            (clean_line <$> (apply_agreement_check set_of (group_by_text anns)).1)) ∧
  ∃ written lines,
    written `prefix_of` (apply_agreement_check set_of (group_by_text anns)).2 ∧
    Forall2 (λ d line, log_line d = Ok line) written lines ∧
    disagreements_log
      (write_outputs (apply_agreement_check set_of (group_by_text anns)).1
                     (apply_agreement_check set_of (group_by_text anns)).2) =
      Some (file_of_lines lines) ∧
    (raised
       (write_outputs (apply_agreement_check set_of (group_by_text anns)).1
                      (apply_agreement_check set_of (group_by_text anns)).2) = None →
     written = (apply_agreement_check set_of (group_by_text anns)).2).
Proof.
  pose proof (group_by_text_keys_NoDup anns) as Hkeys.
  split_and!.
  - rewrite <- group_by_text_keys. by apply agreed_keys_sublist.
  - rewrite <- group_by_text_keys. by apply disagreement_keys_sublist.
  - unfold write_outputs. destruct (write_log _ _). simpl. by rewrite foldl_write.
  - destruct (write_log_prefix
      (apply_agreement_check set_of (group_by_text anns)).2 EmptyString)
      as (written & lines & Hpre & Hlines & Hfile & Hall).
    exists written, lines. unfold write_outputs.
    destruct (write_log _ _) as [log e]. simpl in *.
    split_and!; [done|done|by rewrite Hfile|done].
Qed.
End Run.

(** ** Instances: iteration orders, the scenarios of the specification *)

Lemma first_seen_set_order : set_order first_seen.
Proof.
  intros l. split; [apply NoDup_first_seen|]. intros x. apply elem_of_first_seen.
Qed.

Lemma first_seen_reversed_set_order : set_order first_seen_reversed.
Proof.
  intros l. unfold first_seen_reversed. split.
  - rewrite reverse_Permutation. apply NoDup_first_seen.
  - intros x. by rewrite elem_of_reverse, elem_of_first_seen.
Qed.

Example first_seen_example :
  first_seen [PStr "b"; PStr "a"; PStr "b"; PStr "c"; PStr "a"] =
  [PStr "b"; PStr "a"; PStr "c"].
Proof. reflexivity. Qed.

(** What the grouper returns is a grouping as the resolver expects it:
    no text twice, no empty group. *)
Lemma group_by_text_well_formed (anns : list annotation) :
  NoDup (group_by_text anns).*1 ∧
  Forall (λ item, item.2 ≠ []) (group_by_text anns).
Proof.
  split; [apply group_by_text_keys_NoDup|].
  apply Forall_forall. intros [t members] Hin.
  by eapply group_by_text_group_nonempty.
Qed.

Example example_groups_value :
  example_groups =
  [ (PStr "x", [example_annotation "x" "a" "dog"; example_annotation "x" "b" "cat"]);
    (PStr "y", [example_annotation "y" "a" "pos"; example_annotation "y" "b" "pos"]);
    (PStr "z", [example_annotation "z" "c" "neg"]) ].
Proof. by vm_compute. Qed.

Example example_resolution :
  apply_agreement_check first_seen example_groups =
  ([(PStr "y", PStr "pos"); (PStr "z", PStr "neg")],
   [(PStr "x", [PStr "dog"; PStr "cat"])]).
Proof. by vm_compute. Qed.

Lemma agreement_check_exclusive_witness :
  (∀ t, t ∈ example_groups.*1 →
     (t ∈ (apply_agreement_check first_seen example_groups).1.*1 ∧
      t ∉ (apply_agreement_check first_seen example_groups).2.*1) ∨
     ((t ∉ (apply_agreement_check first_seen example_groups).1.*1) ∧
      t ∈ (apply_agreement_check first_seen example_groups).2.*1)) ∧
  NoDup ((apply_agreement_check first_seen example_groups).1.*1 ++
         (apply_agreement_check first_seen example_groups).2.*1) ∧
  (∀ t, t ∈ (apply_agreement_check first_seen example_groups).1.*1 ++
            (apply_agreement_check first_seen example_groups).2.*1 →
        t ∈ example_groups.*1).
Proof.
  apply (agreement_check_exclusive first_seen example_groups).
  apply (bool_decide_unpack _). vm_compute. exact I.
Defined.

Lemma agreement_check_by_cardinality_witness :
  (PStr "x" ∈ (apply_agreement_check first_seen example_groups).2.*1 ↔
   2 ≤ size (label_set [example_annotation "x" "a" "dog";
                        example_annotation "x" "b" "cat"])) ∧
  (PStr "z", PStr "neg") ∈ (apply_agreement_check first_seen example_groups).1.
Proof.
  destruct (agreement_check_by_cardinality first_seen example_groups)
    as (Hgroups & _ & _ & Hsingle).
  - apply first_seen_set_order.
  - apply (bool_decide_unpack _). vm_compute. exact I.
  - apply (bool_decide_unpack _). vm_compute. exact I.
  - split.
    + apply Hgroups. apply (bool_decide_unpack _). vm_compute. exact I.
    + apply (Hsingle (PStr "z") (example_annotation "z" "c" "neg")).
      apply (bool_decide_unpack _). vm_compute. exact I.
Defined.

Lemma main_deterministic_witness :
  process decimal_float first_seen disagreement_rows CONFIDENCE_THRESHOLD =
  process decimal_float first_seen_reversed disagreement_rows CONFIDENCE_THRESHOLD ∧
  main decimal_float first_seen (fixed_reader agreement_rows) (Some EmptyString) =
  main decimal_float first_seen_reversed (fixed_reader agreement_rows) (Some EmptyString).
Proof.
  destruct (main_deterministic decimal_float (fixed_reader agreement_rows)
              first_seen first_seen_reversed) as [Hprocess Hmain].
  - apply first_seen_set_order.
  - apply first_seen_reversed_set_order.
  - split; [apply Hprocess|apply Hmain].
Defined.

(** The iteration orders of the two runs do differ on the labels of [x]. *)
Example iteration_orders_differ :
  apply_agreement_check first_seen (group_by_text example_annotations) ≠
  apply_agreement_check first_seen_reversed (group_by_text example_annotations).
Proof. by vm_compute. Qed.

(** Two annotators agree on [hello], the annotation of [world] is below
    the threshold: one record in the clean data set, an empty report. *)
Example scenario_agreement :
  process decimal_float first_seen agreement_rows CONFIDENCE_THRESHOLD =
  {| clean_training_dataset :=
       Some ("{" +:+ dquote +:+ "text" +:+ dquote +:+ ": " +:+
             dquote +:+ "hello" +:+ dquote +:+ ", " +:+
             dquote +:+ "label" +:+ dquote +:+ ": " +:+
             dquote +:+ "pos" +:+ dquote +:+ "}" +:+ newline);
     disagreements_log := Some EmptyString;
     raised := None |}.
Proof. by vm_compute. Qed.

(** Two annotators disagree on [x]: an empty clean data set, one line in
    the report, the same for both iteration orders. *)
Example scenario_disagreement :
  process decimal_float first_seen disagreement_rows CONFIDENCE_THRESHOLD =
  {| clean_training_dataset := Some EmptyString;
     disagreements_log := Some ("TEXT: x | LABELS: cat, dog" +:+ newline);
     raised := None |}.
Proof. by vm_compute. Qed.

(** A confidence that is not a number drops the row, whatever its label. *)
Example scenario_not_a_number (l : string) :
  filter_by_confidence decimal_float [make_row "hello" "alice" l "abc"]
    CONFIDENCE_THRESHOLD = Ok [].
Proof.
  unfold filter_by_confidence. simpl.
  rewrite filter_row_drops; [done|by vm_compute|].
  intros x Hx. by vm_compute in Hx.
Qed.

(** * Further properties *)

(** ** QC1: errors, batches, thresholds *)

Section Filter_errors.
Variable float_of_str : string → option float.

(** The loop body in closed form: the exception of the row, or what the
    row contributes. *)
Lemma filter_row_cases (row : raw_record) τ :
  filter_row float_of_str row τ =
  match row_error float_of_str τ row with
  | Some e => Raise e
  | None => Ok (accepted_of float_of_str τ row)
  end.
Proof.
  unfold filter_row, row_error, accepted_of, parsed_confidence.
  rewrite try_block_cases.
  destruct (row !! "confidence_score") as [[|s]|]; try done.
  destruct (float_of_str s) as [x|]; [|done]. simpl.
  destruct (float_ge x τ) eqn:Hge.
  - unfold subscript.
    destruct (row !! "text") as [t|]; simpl; [|done].
    by destruct (row !! "label") as [l|].
  - destruct (row !! "text") as [t|]; simpl; [|done].
    by destruct (row !! "label") as [l|].
Qed.

(** The accumulator of the loop is a prefix of its result. *)
Lemma filter_loop_acc rows τ acc :
  filter_loop float_of_str rows τ acc =
  let! out := filter_loop float_of_str rows τ [] in Ok (acc ++ out).
Proof.
  revert acc. induction rows as [|row rows IH]; intros acc; simpl.
  - by rewrite app_nil_r.
  - destruct (filter_row float_of_str row τ) as [[a|]|e]; simpl; [|apply IH|done].
    rewrite (IH (acc ++ [a])), (IH [a]).
    destruct (filter_loop float_of_str rows τ []); simpl; [|done].
    by rewrite <- app_assoc.
Qed.

Lemma filter_by_confidence_cons row rows τ :
  filter_by_confidence float_of_str (row :: rows) τ =
  let! r := filter_row float_of_str row τ in
  let! out := filter_by_confidence float_of_str rows τ in
  Ok (option_list r ++ out).
Proof.
  unfold filter_by_confidence. simpl.
  destruct (filter_row float_of_str row τ) as [[a|]|e]; simpl; [| |done].
  - by rewrite filter_loop_acc.
  - by destruct (filter_loop float_of_str rows τ []).
Qed.

(** The filter in closed form. *)
Lemma filter_by_confidence_closed_form rows τ :
  filter_by_confidence float_of_str rows τ =
  match first_error float_of_str τ rows with
  | Some e => Raise e
  | None => Ok (omap (accepted_of float_of_str τ) rows)
  end.
Proof.
  induction rows as [|row rows IH]; [done|].
  rewrite filter_by_confidence_cons, filter_row_cases. simpl.
  destruct (row_error float_of_str τ row) as [e|]; simpl; [done|].
  rewrite IH. destruct (first_error float_of_str τ rows); simpl; [done|].
  by destruct (accepted_of float_of_str τ row).
Qed.

Lemma first_error_app rows1 rows2 τ :
  first_error float_of_str τ (rows1 ++ rows2) =
  match first_error float_of_str τ rows1 with
  | Some e => Some e
  | None => first_error float_of_str τ rows2
  end.
Proof.
  induction rows1 as [|row rows1 IH]; simpl; [done|].
  by destruct (row_error float_of_str τ row).
Qed.

Lemma first_error_None rows τ :
  first_error float_of_str τ rows = None ↔
  Forall (λ row, row_error float_of_str τ row = None) rows.
Proof.
  induction rows as [|row rows IH]; simpl.
  - split; [constructor|done].
  - rewrite Forall_cons, <- IH.
    destruct (row_error float_of_str τ row); [|tauto].
    split; [done|]. by intros [? _].
Qed.

(** A row without an exception and without an annotation can be left
    out. *)
Lemma filter_by_confidence_without_row before row after τ :
  row_error float_of_str τ row = None →
  accepted_of float_of_str τ row = None →
  filter_by_confidence float_of_str (before ++ row :: after) τ =
  filter_by_confidence float_of_str (before ++ after) τ.
Proof.
  intros Herr Hacc. rewrite !filter_by_confidence_closed_form, !first_error_app.
  simpl. rewrite Herr, !omap_app. csimpl. by rewrite Hacc.
Qed.

(** X1: the filter returns exactly when no row has a [None] confidence
    ([TypeError]) and no row reaches the threshold without a text or
    without a label ([KeyError], the text first); it then returns what
    the rows that reach the threshold contribute, in input order.
    Otherwise it raises the exception of the first such row, and the
    rows after it play no part. *)
Theorem filter_by_confidence_cases rows τ :
  (Forall (λ row, row_error float_of_str τ row = None) rows ↔
   returns (filter_by_confidence float_of_str rows τ)) ∧
  (∀ out, filter_by_confidence float_of_str rows τ = Ok out →
     out = omap (accepted_of float_of_str τ) rows) ∧
  (∀ before row after e,
     rows = before ++ row :: after →
     Forall (λ row, row_error float_of_str τ row = None) before →
     row_error float_of_str τ row = Some e →
     filter_by_confidence float_of_str rows τ = Raise e).
Proof.
  split_and!.
  - rewrite <- first_error_None, filter_by_confidence_closed_form.
    destruct (first_error float_of_str τ rows); split; try done.
    + by intros [out ?].
    + intros _. by eexists.
  - intros out. rewrite filter_by_confidence_closed_form.
    destruct (first_error float_of_str τ rows); [done|]. by intros [= <-].
  - intros before row after e -> Hbefore Hrow.
    rewrite filter_by_confidence_closed_form, first_error_app.
    apply first_error_None in Hbefore. rewrite Hbefore. simpl. by rewrite Hrow.
Qed.

(** X2: filtering a concatenation is filtering the parts, one after the
    other: the results are concatenated, and the first part's exception
    comes first. *)
Theorem filter_by_confidence_app rows1 rows2 τ :
  filter_by_confidence float_of_str (rows1 ++ rows2) τ =
  let! out1 := filter_by_confidence float_of_str rows1 τ in
  let! out2 := filter_by_confidence float_of_str rows2 τ in
  Ok (out1 ++ out2).
Proof.
  induction rows1 as [|row rows1 IH]; simpl.
  - by destruct (filter_by_confidence float_of_str rows2 τ).
  - rewrite !filter_by_confidence_cons, IH.
    destruct (filter_row float_of_str row τ) as [r|e]; simpl; [|done].
    destruct (filter_by_confidence float_of_str rows1 τ) as [out1|e]; simpl; [|done].
    destruct (filter_by_confidence float_of_str rows2 τ) as [out2|e]; simpl; [|done].
    by rewrite app_assoc.
Qed.

(** X3: a row whose confidence is absent, or a string that does not
    parse, or below the threshold, can be taken out of the input without
    changing what the filter returns or raises, whatever else the row
    holds. *)
Theorem filter_by_confidence_skips before (row : raw_record) after τ :
  row !! "confidence_score" ≠ Some PNone →
  (∀ x, parsed_confidence float_of_str row = Some x → float_ge x τ = false) →
  filter_by_confidence float_of_str (before ++ row :: after) τ =
  filter_by_confidence float_of_str (before ++ after) τ.
Proof.
  intros Hnone Hlow.
  pose proof (filter_row_drops float_of_str row τ Hnone Hlow) as Hdrop.
  rewrite filter_row_cases in Hdrop.
  destruct (row_error float_of_str τ row) eqn:Herr; [done|].
  injection Hdrop as Hacc. by apply filter_by_confidence_without_row.
Qed.
End Filter_errors.

Lemma filter_by_confidence_skips_witness :
  filter_by_confidence decimal_float
    ([row_without_text] ++ {[ "label" := PStr "pos" ]} :: [short_row])
    CONFIDENCE_THRESHOLD =
  filter_by_confidence decimal_float ([row_without_text] ++ [short_row])
    CONFIDENCE_THRESHOLD.
Proof.
  apply (filter_by_confidence_skips decimal_float).
  - by vm_compute.
  - intros x Hx. by vm_compute in Hx.
Defined.

Lemma filter_by_confidence_cases_witness :
  filter_by_confidence decimal_float rows_with_short_line CONFIDENCE_THRESHOLD =
  Raise TypeError.
Proof.
  apply (proj2 (proj2 (filter_by_confidence_cases decimal_float
                         rows_with_short_line CONFIDENCE_THRESHOLD))
           [make_row "hello" "alice" "pos" "0.9"] short_row
           [make_row "world" "carol" "neg" "0.9"]).
  - reflexivity.
  - apply List.Forall_cons; [by vm_compute|apply List.Forall_nil].
  - by vm_compute.
Defined.

Example filter_by_confidence_short_line :
  filter_by_confidence decimal_float rows_with_short_line CONFIDENCE_THRESHOLD =
  Raise TypeError.
Proof. by vm_compute. Qed.

Example filter_by_confidence_without_label :
  filter_by_confidence decimal_float [row_without_label] CONFIDENCE_THRESHOLD =
  Raise (KeyError "label").
Proof. by vm_compute. Qed.

Lemma omap_cons_option_list {A B} (f : A → option B) (x : A) (l : list A) :
  omap f (x :: l) = option_list (f x) ++ omap f l.
Proof. csimpl. by destruct (f x). Qed.

Section Float_order.
(** The comparison of floats is transitive. *)
Lemma SFleb_trans (a b c : float) :
  SFleb a b = true → SFleb b c = true → SFleb a c = true.
Proof.
  unfold SFleb, SFcompare.
  destruct a as [sa|sa| |sa ma ea], b as [sb|sb| |sb mb eb],
    c as [sc|sc| |sc mc ec]; try done;
    repeat match goal with s : bool |- _ => destruct s end; try done;
    change (Pos.compare_cont Eq) with Pos.compare;
    destruct (Z.compare_spec ea eb), (Z.compare_spec eb ec),
      (Z.compare_spec ea ec); try lia; try done;
    destruct (Pos.compare_spec ma mb), (Pos.compare_spec mb mc),
      (Pos.compare_spec ma mc); simpl; try done; lia.
Qed.

Lemma float_ge_nan_l (τ : float) : float_ge S754_nan τ = false.
Proof. by destruct τ. Qed.

Lemma float_ge_infinity (τ : float) :
  τ ≠ S754_nan → float_ge (S754_infinity false) τ = true.
Proof. by destruct τ as [[]|[]| |[] m e]. Qed.
End Float_order.

Section Thresholds.
Variable float_of_str : string → option float.

Lemma row_error_threshold (row : raw_record) τ1 τ2 e :
  SFleb τ1 τ2 = true →
  row_error float_of_str τ2 row = Some e → row_error float_of_str τ1 row = Some e.
Proof.
  intros Hle. unfold row_error.
  destruct (row !! "confidence_score") as [[|s]|]; try done.
  destruct (float_of_str s) as [x|]; [|done].
  destruct (float_ge x τ2) eqn:Hge2; [|done].
  by rewrite (SFleb_trans τ1 τ2 x Hle Hge2 : float_ge x τ1 = true).
Qed.

Lemma first_error_threshold rows τ1 τ2 :
  SFleb τ1 τ2 = true →
  first_error float_of_str τ1 rows = None → first_error float_of_str τ2 rows = None.
Proof.
  intros Hle. induction rows as [|row rows IH]; simpl; [done|].
  destruct (row_error float_of_str τ2 row) as [e|] eqn:He.
  - by rewrite (row_error_threshold row τ1 τ2 e Hle He).
  - destruct (row_error float_of_str τ1 row); [done|apply IH].
Qed.

Lemma accepted_of_threshold (row : raw_record) τ1 τ2 :
  SFleb τ1 τ2 = true →
  option_list (accepted_of float_of_str τ2 row) =
  filter (λ a, float_ge (confidence_score a) τ2 = true)
         (option_list (accepted_of float_of_str τ1 row)).
Proof.
  intros Hle. unfold accepted_of.
  destruct (parsed_confidence float_of_str row) as [x|]; simpl; [|done].
  destruct (row !! "text") as [t|]; simpl; [|done].
  destruct (row !! "label") as [l|]; simpl; [|done].
  destruct (float_ge x τ2) eqn:Hge2.
  - rewrite (SFleb_trans τ1 τ2 x Hle Hge2 : float_ge x τ1 = true). simpl.
    by rewrite filter_cons_True.
  - destruct (float_ge x τ1); simpl; [|done].
    rewrite filter_cons_False; [done|]. simpl. by rewrite Hge2.
Qed.

(** X4: raising the threshold only removes annotations: when the filter
    returns for a threshold, it returns for every higher one, with the
    annotations of the first result whose confidence reaches the higher
    threshold, in the same order. *)
Theorem filter_by_confidence_threshold rows τ1 τ2 out1 :
  SFleb τ1 τ2 = true →
  filter_by_confidence float_of_str rows τ1 = Ok out1 →
  filter_by_confidence float_of_str rows τ2 =
    Ok (filter (λ a, float_ge (confidence_score a) τ2 = true) out1).
Proof.
  intros Hle. rewrite !filter_by_confidence_closed_form.
  destruct (first_error float_of_str τ1 rows) eqn:Herr; [done|].
  rewrite (first_error_threshold rows τ1 τ2 Hle Herr). intros [= <-]. f_equal.
  clear Herr. induction rows as [|row rows IH]; [done|].
  rewrite !omap_cons_option_list, filter_app, <- IH.
  by rewrite <- accepted_of_threshold.
Qed.

(** X5: a confidence that parses to a NaN is below every threshold: the
    row is skipped, whatever the threshold; a confidence that parses to
    the positive infinity reaches every threshold that is a number: the
    loop body goes on to the lookups of the text and of the label, and
    produces the annotation of a row that has both. *)
Theorem filter_by_confidence_special before (row : raw_record) after s τ :
  row !! "confidence_score" = Some (PStr s) →
  (float_of_str s = Some S754_nan →
   filter_by_confidence float_of_str (before ++ row :: after) τ =
   filter_by_confidence float_of_str (before ++ after) τ) ∧
  (float_of_str s = Some (S754_infinity false) → τ ≠ S754_nan →
   filter_row float_of_str row τ =
     (let! t := subscript row "text" in
      let! l := subscript row "label" in
      Ok (Some {| text := t; annotator_id := dict_get row "annotator_id";
                  label := l; confidence_score := S754_infinity false |})) ∧
   ∀ t l, row !! "text" = Some t → row !! "label" = Some l →
     filter_row float_of_str row τ =
       Ok (Some {| text := t; annotator_id := dict_get row "annotator_id";
                   label := l; confidence_score := S754_infinity false |})).
Proof.
  intros Hs. split.
  - intros Hnan. apply filter_by_confidence_without_row.
    + unfold row_error. by rewrite Hs, Hnan, float_ge_nan_l.
    + unfold accepted_of, parsed_confidence. rewrite Hs, Hnan. simpl.
      destruct (row !! "text"); simpl; [|done].
      destruct (row !! "label"); simpl; [|done].
      by rewrite float_ge_nan_l.
  - intros Hinf Hτ.
    assert (Hrow : filter_row float_of_str row τ =
      (let! t := subscript row "text" in
       let! l := subscript row "label" in
       Ok (Some {| text := t; annotator_id := dict_get row "annotator_id";
                   label := l; confidence_score := S754_infinity false |}))).
    { apply filter_row_confident.
      - unfold parsed_confidence. by rewrite Hs.
      - by apply float_ge_infinity. }
    split; [done|]. intros t l Ht Hl. rewrite Hrow. unfold subscript.
    by rewrite Ht, Hl.
Qed.
End Thresholds.

Lemma filter_by_confidence_threshold_witness :
  filter_by_confidence decimal_float mixed_rows threshold_09 =
  Ok (filter (λ a, float_ge (confidence_score a) threshold_09 = true)
        [ {| text := PStr "hello"; annotator_id := PStr "alice"; label := PStr "pos";
             confidence_score := threshold_09 |};
          {| text := PStr "world"; annotator_id := PStr "carol"; label := PStr "neg";
             confidence_score := CONFIDENCE_THRESHOLD |} ]).
Proof.
  apply filter_by_confidence_threshold with CONFIDENCE_THRESHOLD; by vm_compute.
Defined.

Lemma filter_by_confidence_special_witness :
  filter_by_confidence special_float
    ([] ++ make_row "hello" "alice" "pos" "nan" :: agreement_rows)
    CONFIDENCE_THRESHOLD =
  filter_by_confidence special_float ([] ++ agreement_rows) CONFIDENCE_THRESHOLD ∧
  filter_row special_float (make_row "hello" "alice" "pos" "inf") CONFIDENCE_THRESHOLD =
    Ok (Some {| text := PStr "hello"; annotator_id := dict_get (make_row "hello" "alice" "pos" "inf") "annotator_id";
                label := PStr "pos"; confidence_score := S754_infinity false |}) ∧
  filter_row special_float {[ "confidence_score" := PStr "inf" ]} CONFIDENCE_THRESHOLD =
    Raise (KeyError "text").
Proof.
  split_and!.
  - apply (filter_by_confidence_special special_float [] _ agreement_rows "nan");
      by vm_compute.
  - apply (filter_by_confidence_special special_float [] _ [] "inf"
             CONFIDENCE_THRESHOLD); by vm_compute.
  - destruct (filter_by_confidence_special special_float []
                {[ "confidence_score" := PStr "inf" ]} [] "inf"
                CONFIDENCE_THRESHOLD) as [_ Hinf]; [by vm_compute|].
    destruct Hinf as [Hrow _]; [by vm_compute|discriminate|].
    rewrite Hrow. by vm_compute.
Defined.

(** ** QC2 on the annotations themselves *)

Section Resolver_on_annotations.
Variable set_of : list pyval → list pyval.
Hypothesis Hset : set_order set_of.

Lemma set_of_singleton_iff (labels : list pyval) l :
  set_of labels = [l] ↔ labels ≠ [] ∧ ∀ x, x ∈ labels → x = l.
Proof.
  destruct (Hset labels) as [Hnodup Helem]. split.
  - intros Hl. rewrite Hl in Helem. split.
    + intros ->. assert (l ∈ @nil pyval) as Hin by (apply Helem; left).
      by apply elem_of_nil in Hin.
    + intros x Hx. by apply Helem, list_elem_of_singleton in Hx.
  - intros [Hne Hall].
    destruct labels as [|x labels]; [done|].
    assert (x = l) as -> by (apply Hall; left).
    assert (∀ y, y ∈ set_of (l :: labels) → y = l) as Hall'
      by (intros y Hy; by apply Hall, Helem).
    assert (l ∈ set_of (l :: labels)) as Hin by (apply Helem; left).
    destruct (set_of (l :: labels)) as [|a [|b rest]].
    + by apply elem_of_nil in Hin.
    + f_equal. apply Hall'. left.
    + apply NoDup_cons in Hnodup as [Hab _]. destruct Hab.
      rewrite (Hall' a) by left. rewrite (Hall' b) by (right; left). left.
Qed.

Lemma set_of_not_singleton_iff (labels : list pyval) :
  labels ≠ [] →
  length (set_of labels) ≠ 1 ↔ ∃ x y, x ∈ labels ∧ y ∈ labels ∧ x ≠ y.
Proof.
  intros Hne. destruct (Hset labels) as [Hnodup Helem]. split.
  - intros Hlen. destruct (set_of labels) as [|a [|b rest]] eqn:Hl; [|done|].
    + destruct labels as [|x labels]; [done|].
      assert (x ∈ @nil pyval) as Hin by (apply Helem; left).
      by apply elem_of_nil in Hin.
    + exists a, b. split_and!.
      * apply Helem. left.
      * apply Helem. right. left.
      * apply NoDup_cons in Hnodup as [Hab _]. intros ->. apply Hab. left.
  - intros (x & y & Hx & Hy & Hxy) Hlen.
    destruct (set_of labels) as [|a [|b rest]]; try done.
    apply Helem, list_elem_of_singleton in Hx.
    apply Helem, list_elem_of_singleton in Hy. congruence.
Qed.

(** The two results of QC2 described on the annotations. *)
Lemma resolve_on_annotations (anns : list annotation) :
  (∀ t l, (t, l) ∈ (apply_agreement_check set_of (group_by_text anns)).1 ↔
     t ∈ text <$> anns ∧ ∀ a, a ∈ anns → text a = t → label a = l) ∧
  (∀ t, t ∈ (apply_agreement_check set_of (group_by_text anns)).2.*1 ↔
     ∃ a b, a ∈ anns ∧ b ∈ anns ∧ text a = t ∧ text b = t ∧ label a ≠ label b) ∧
  (∀ t labels, (t, labels) ∈ (apply_agreement_check set_of (group_by_text anns)).2 →
     NoDup labels ∧ ∀ x, x ∈ labels ↔ ∃ a, a ∈ anns ∧ text a = t ∧ label a = x).
Proof.
  pose proof (group_by_text_keys_NoDup anns) as Hkeys.
  assert (Hmembers : ∀ t x,
    x ∈ label <$> filter (λ a, text a = t) anns ↔
    ∃ a, a ∈ anns ∧ text a = t ∧ label a = x).
  { intros t x. rewrite list_elem_of_fmap. split.
    - intros (a & -> & [Ht Ha]%list_elem_of_filter). by exists a.
    - intros (a & Ha & Ht & <-). exists a. split; [done|].
      by apply list_elem_of_filter. }
  assert (Hne : ∀ t, t ∈ text <$> anns →
    label <$> filter (λ a, text a = t) anns ≠ []).
  { intros t (a & -> & Ha)%list_elem_of_fmap Hnil.
    apply fmap_nil_inv in Hnil.
    by apply (filter_nil_not_elem_of _ _ a) in Hnil. }
  split_and!.
  - intros t l. rewrite elem_of_agreed by done. split.
    + intros (members & [Ht ->]%elem_of_group_by_text & Hl).
      split; [done|]. intros a Ha Hta.
      apply set_of_singleton_iff in Hl as [_ Hall].
      apply Hall, Hmembers. by exists a.
    + intros [Ht Hall]. exists (filter (λ a, text a = t) anns). split.
      * by apply elem_of_group_by_text.
      * apply set_of_singleton_iff. split; [by apply Hne|].
        intros x (a & Ha & Hta & <-)%Hmembers. by apply Hall.
  - intros t. split.
    + intros ([t' labels] & -> & Hin)%list_elem_of_fmap. simpl.
      apply elem_of_disagreements in Hin as (members & Hg & <- & Hlen); [|done].
      apply elem_of_group_by_text in Hg as [Ht ->].
      apply set_of_not_singleton_iff in Hlen as (x & y & Hx & Hy & Hxy);
        [|by apply Hne].
      apply Hmembers in Hx as (a & Ha & Hta & <-).
      apply Hmembers in Hy as (b & Hb & Htb & <-).
      by exists a, b.
    + intros (a & b & Ha & Hb & Hta & Htb & Hab).
      assert (t ∈ text <$> anns) as Ht by (rewrite <- Hta; by apply list_elem_of_fmap_2).
      apply (disagreement_key_iff set_of _ t (filter (λ a, text a = t) anns)); [done| |].
      * by apply elem_of_group_by_text.
      * apply set_of_not_singleton_iff; [by apply Hne|].
        exists (label a), (label b). split_and!; [| |done]; apply Hmembers; eauto.
  - intros t labels (members & [Ht ->]%elem_of_group_by_text & <- & _)%elem_of_disagreements;
      [|done].
    destruct (Hset (label <$> filter (λ a, text a = t) anns)) as [Hnodup Helem].
    split; [done|]. intros x. by rewrite Helem, Hmembers.
Qed.

(** X6: grouping and resolving together, read on the accepted
    annotations: a text is an agreed sample with a label exactly when it
    has an annotation and all its annotations carry that label; it is the
    text of a disagreement exactly when two of its annotations carry
    different labels, and the disagreement then holds each label of the
    text once. *)
Theorem agreement_by_annotations (anns : list annotation) :
  (∀ t l, (t, l) ∈ (apply_agreement_check set_of (group_by_text anns)).1 ↔
     t ∈ text <$> anns ∧ ∀ a, a ∈ anns → text a = t → label a = l) ∧
  (∀ t, t ∈ (apply_agreement_check set_of (group_by_text anns)).2.*1 ↔
     ∃ a b, a ∈ anns ∧ b ∈ anns ∧ text a = t ∧ text b = t ∧ label a ≠ label b) ∧
  (∀ t labels, (t, labels) ∈ (apply_agreement_check set_of (group_by_text anns)).2 →
     NoDup labels ∧ ∀ x, x ∈ labels ↔ ∃ a, a ∈ anns ∧ text a = t ∧ label a = x).
Proof.
  destruct (resolve_on_annotations anns) as (Hagreed & Hkeys & Hlabels).
  split_and!; [exact Hagreed|exact Hkeys|exact Hlabels].
Qed.
End Resolver_on_annotations.

Lemma agreement_by_annotations_witness :
  (∀ t l, (t, l) ∈ (apply_agreement_check first_seen
                      (group_by_text example_annotations)).1 ↔
     t ∈ text <$> example_annotations ∧
     ∀ a, a ∈ example_annotations → text a = t → label a = l) ∧
  (∀ t, t ∈ (apply_agreement_check first_seen
               (group_by_text example_annotations)).2.*1 ↔
     ∃ a b, a ∈ example_annotations ∧ b ∈ example_annotations ∧
            text a = t ∧ text b = t ∧ label a ≠ label b) ∧
  (∀ t labels, (t, labels) ∈ (apply_agreement_check first_seen
                                (group_by_text example_annotations)).2 →
     NoDup labels ∧
     ∀ x, x ∈ labels ↔ ∃ a, a ∈ example_annotations ∧ text a = t ∧ label a = x).
Proof.
  apply (agreement_by_annotations first_seen first_seen_set_order example_annotations).
Defined.

(** ** Counts, order of the input, fields that are not used *)

Lemma length_omap_le {A B} (f : A → option B) (l : list A) :
  length (omap f l) ≤ length l.
Proof.
  induction l as [|x l IH]; csimpl; [done|]. destruct (f x); simpl; lia.
Qed.

Section Counts.
Variable float_of_str : string → option float.
Variable set_of : list pyval → list pyval.

Lemma length_entries (g : list (pyval * list annotation)) :
  length (omap (agreed_entry set_of) g) + length (omap (disagreement_entry set_of) g) =
  length g.
Proof.
  induction g as [|item g IH]; csimpl; [done|].
  destruct (entry_cases set_of item) as [(l & _ & Ha & Hd)|(_ & Ha & Hd)];
    rewrite Ha, Hd; simpl; lia.
Qed.

(** X7: the numbers that [main] prints are ordered: when the filter
    returns, there are no more accepted annotations than rows, no more
    distinct texts than accepted annotations, and the texts with
    agreement and the texts with disagreement add up to the distinct
    texts. *)
Theorem stage_counts rows τ accepted :
  filter_by_confidence float_of_str rows τ = Ok accepted →
  length accepted ≤ length rows ∧
  length (group_by_text accepted) ≤ length accepted ∧
  length (apply_agreement_check set_of (group_by_text accepted)).1 +
  length (apply_agreement_check set_of (group_by_text accepted)).2 =
    length (group_by_text accepted).
Proof.
  intros Hfilter. split_and!.
  - rewrite filter_by_confidence_closed_form in Hfilter.
    destruct (first_error float_of_str τ rows); [done|].
    injection Hfilter as <-. apply length_omap_le.
  - rewrite <- (length_fmap fst (group_by_text accepted)), group_by_text_keys.
    rewrite <- (length_fmap text accepted).
    apply sublist_length, first_seen_sublist.
  - rewrite apply_agreement_check_closed_form by apply group_by_text_keys_NoDup.
    apply length_entries.
Qed.
End Counts.

Lemma stage_counts_witness :
  length mixed_accepted ≤ length mixed_rows ∧
  length (group_by_text mixed_accepted) ≤ length mixed_accepted ∧
  length (apply_agreement_check first_seen (group_by_text mixed_accepted)).1 +
  length (apply_agreement_check first_seen (group_by_text mixed_accepted)).2 =
    length (group_by_text mixed_accepted).
Proof.
  apply (stage_counts decimal_float first_seen mixed_rows CONFIDENCE_THRESHOLD).
  by vm_compute.
Defined.

Section Invariance.
Variable set_of : list pyval → list pyval.

Lemma labels_by_text_label (anns : list annotation) k :
  label <$> filter (λ a, text a = k) anns =
  snd <$> filter (λ p, p.1 = k) (text_label <$> anns).
Proof.
  induction anns as [|a anns IH]; [done|]. csimpl.
  rewrite !filter_cons. simpl. destruct (decide (text a = k)); csimpl; by rewrite IH.
Qed.

Lemma omap_fmap_ext {A B C} (f : B → option C) (g1 g2 : A → B) (l : list A) :
  (∀ x, f (g1 x) = f (g2 x)) → omap f (g1 <$> l) = omap f (g2 <$> l).
Proof.
  intros Hf. induction l as [|x l IH]; csimpl; [done|]. by rewrite Hf, IH.
Qed.

(** X8: QC2 looks at the text and the label of the accepted
    annotations and at nothing else: two sequences of annotations with
    the same texts and labels, in the same order, give the same agreed
    samples and the same disagreements, whatever their annotators and
    confidences. *)
Theorem agreement_uses_text_and_label (anns1 anns2 : list annotation) :
  text_label <$> anns1 = text_label <$> anns2 →
  apply_agreement_check set_of (group_by_text anns1) =
  apply_agreement_check set_of (group_by_text anns2).
Proof.
  intros Heq.
  rewrite !apply_agreement_check_closed_form by apply group_by_text_keys_NoDup.
  rewrite !group_by_text_closed_form.
  assert (text <$> anns1 = text <$> anns2) as ->.
  { change text with (fst ∘ text_label). by rewrite !list_fmap_compose, Heq. }
  f_equal; apply omap_fmap_ext; intros k.
  - unfold agreed_entry. simpl. by rewrite !labels_by_text_label, Heq.
  - unfold disagreement_entry. simpl. by rewrite !labels_by_text_label, Heq.
Qed.

Hypothesis Hset : set_order set_of.

(** X9: the order of the accepted annotations decides the order of the
    results and nothing else: for two sequences with the same
    annotations in different orders, the agreed samples are the same up
    to order, so are the texts with a disagreement, and the
    disagreements of a text hold the same labels. *)
Theorem agreement_Permutation (anns1 anns2 : list annotation) :
  anns1 ≡ₚ anns2 →
  (apply_agreement_check set_of (group_by_text anns1)).1 ≡ₚ
  (apply_agreement_check set_of (group_by_text anns2)).1 ∧
  (apply_agreement_check set_of (group_by_text anns1)).2.*1 ≡ₚ
  (apply_agreement_check set_of (group_by_text anns2)).2.*1 ∧
  (∀ t labels1 labels2,
     (t, labels1) ∈ (apply_agreement_check set_of (group_by_text anns1)).2 →
     (t, labels2) ∈ (apply_agreement_check set_of (group_by_text anns2)).2 →
     labels1 ≡ₚ labels2).
Proof.
  intros Hperm.
  destruct (resolve_on_annotations set_of Hset anns1) as (Ha1 & Hd1 & Hl1).
  destruct (resolve_on_annotations set_of Hset anns2) as (Ha2 & Hd2 & Hl2).
  assert (Hkeys : ∀ anns,
    NoDup (apply_agreement_check set_of (group_by_text anns)).1.*1 ∧
    NoDup (apply_agreement_check set_of (group_by_text anns)).2.*1).
  { intros anns. pose proof (group_by_text_keys_NoDup anns).
    split; (eapply sublist_NoDup; [done|]).
    - by apply agreed_keys_sublist.
    - by apply disagreement_keys_sublist. }
  split_and!.
  - apply NoDup_Permutation.
    + eapply NoDup_fmap_1, (Hkeys anns1).
    + eapply NoDup_fmap_1, (Hkeys anns2).
    + intros [t l]. rewrite Ha1, Ha2. by setoid_rewrite Hperm.
  - apply NoDup_Permutation; [apply (Hkeys anns1)|apply (Hkeys anns2)|].
    intros t. rewrite Hd1, Hd2. by setoid_rewrite Hperm.
  - intros t labels1 labels2 [Hn1 He1]%Hl1 [Hn2 He2]%Hl2.
    apply NoDup_Permutation; [done..|].
    intros x. rewrite He1, He2. by setoid_rewrite Hperm.
Qed.

(** X10: a group without annotations, which the grouper never builds, is
    not skipped by the resolver: its set of labels is empty, its size is
    not 1, and the text becomes a disagreement without labels, reported
    with nothing after [LABELS: ]. *)
Theorem empty_group_is_disagreement (g : list (pyval * list annotation)) t :
  NoDup g.*1 → (t, []) ∈ g →
  (t, []) ∈ (apply_agreement_check set_of g).2 ∧
  (t ∉ (apply_agreement_check set_of g).1.*1) ∧
  log_line (t, []) = Ok ("TEXT: " +:+ py_str t +:+ " | LABELS: " +:+ newline).
Proof.
  intros Hg Hin.
  assert (set_of (label <$> []) = []) as Hnil.
  { change (label <$> []) with (@nil pyval).
    destruct (Hset []) as [_ Helem].
    destruct (set_of []) as [|x rest]; [done|].
    assert (x ∈ @nil pyval) as Hx by (apply Helem; left).
    by apply elem_of_nil in Hx. }
  split_and!.
  - apply elem_of_disagreements; [done|]. exists []. by rewrite Hnil.
  - rewrite (agreed_key_iff set_of g t []) by done. by rewrite Hnil.
  - done.
Qed.
End Invariance.

Lemma agreement_uses_text_and_label_witness :
  apply_agreement_check first_seen (group_by_text example_annotations) =
  apply_agreement_check first_seen (group_by_text example_annotations_anonymous).
Proof. apply agreement_uses_text_and_label. by vm_compute. Defined.

Lemma agreement_Permutation_witness :
  (apply_agreement_check first_seen (group_by_text example_annotations)).1 ≡ₚ
  (apply_agreement_check first_seen (group_by_text example_annotations_shuffled)).1.
Proof.
  apply (agreement_Permutation first_seen first_seen_set_order).
  symmetry. apply reverse_Permutation.
Defined.

Example agreement_of_shuffled :
  apply_agreement_check first_seen (group_by_text example_annotations_shuffled) =
  ([(PStr "y", PStr "pos"); (PStr "z", PStr "neg")],
   [(PStr "x", [PStr "cat"; PStr "dog"])]).
Proof. by vm_compute. Qed.

Lemma empty_group_is_disagreement_witness :
  (PStr "x", []) ∈ (apply_agreement_check first_seen groups_with_empty).2.
Proof.
  apply (empty_group_is_disagreement first_seen first_seen_set_order groups_with_empty).
  - apply (bool_decide_unpack _). vm_compute. exact I.
  - apply (bool_decide_unpack _). vm_compute. exact I.
Defined.

(** ** The writer: labels that are not strings, line feeds *)

Section Writer_errors.
(** A line of the report can be formatted exactly when no label is
    [None]. *)
Lemma log_line_cases (d : pyval * list pyval) :
  log_line d =
  if decide (PNone ∈ d.2) then Raise TypeError
  else Ok ("TEXT: " +:+ py_str d.1 +:+ " | LABELS: " +:+
           String.concat ", " (merge_sort String.le (omap pyval_to_option d.2)) +:+
           newline).
Proof.
  destruct d as [t labels]. simpl. case_decide as Hin.
  - unfold log_line. simpl.
    destruct labels as [|x [|y labels]].
    + by apply elem_of_nil in Hin.
    + apply list_elem_of_singleton in Hin as <-. done.
    + unfold py_sorted. rewrite all_str_cases. by rewrite decide_True.
  - pose proof (all_str_cases labels) as Hall. rewrite decide_False in Hall by done.
    apply all_str_inv in Hall. rewrite Hall at 1.
    apply (log_line_strings (_, _)).
Qed.

Lemma write_log_app ds1 ds2 written :
  write_log (ds1 ++ ds2) written =
  match write_log ds1 written with
  | (written', None) => write_log ds2 written'
  | (written', Some e) => (written', Some e)
  end.
Proof.
  revert written. induction ds1 as [|d ds1 IH]; intros written; simpl; [done|].
  destruct (log_line d); [apply IH|done].
Qed.

Lemma write_log_raised ds written :
  (write_log ds written).2 = None ↔
  Forall (λ d : pyval * list pyval, PNone ∉ d.2) ds.
Proof.
  revert written. induction ds as [|d ds IH]; intros written; simpl.
  - split; [constructor|done].
  - rewrite log_line_cases, Forall_cons. case_decide as Hd.
    + simpl. split; [done|]. by intros [? _].
    + rewrite IH. tauto.
Qed.

(** X11: the writer completes exactly when no disagreement has [None]
    among its labels. At the first disagreement that has one it raises a
    [TypeError]: the clean data set has been written in full, the report
    holds the lines of the disagreements before that one, and the
    disagreements after it are not reported. *)
Theorem write_outputs_None_label agreed ds :
  (raised (write_outputs agreed ds) = None ↔
   Forall (λ d : pyval * list pyval, PNone ∉ d.2) ds) ∧
  (∀ before d after,
     ds = before ++ d :: after →
     Forall (λ d : pyval * list pyval, PNone ∉ d.2) before → PNone ∈ d.2 →
     raised (write_outputs agreed ds) = Some TypeError ∧
     disagreements_log (write_outputs agreed ds) =
       disagreements_log (write_outputs agreed before) ∧
     raised (write_outputs agreed before) = None ∧
     clean_training_dataset (write_outputs agreed ds) =
       Some (file_of_lines (clean_line <$> agreed))).
Proof.
  split.
  - rewrite <- (write_log_raised ds EmptyString). unfold write_outputs.
    by destruct (write_log ds EmptyString).
  - intros before d after -> Hbefore Hd.
    apply (write_log_raised before EmptyString) in Hbefore.
    unfold write_outputs. rewrite write_log_app.
    destruct (write_log before EmptyString) as [w e]. simpl in Hbefore. subst e.
    simpl. rewrite log_line_cases, decide_True by done. simpl.
    split_and!; [done..|]. by rewrite foldl_write.
Qed.
End Writer_errors.

Lemma write_outputs_None_label_witness :
  raised (write_outputs [] disagreements_with_None) = Some TypeError ∧
  disagreements_log (write_outputs [] disagreements_with_None) =
    disagreements_log (write_outputs [] [(PStr "x", [PStr "dog"; PStr "cat"])]).
Proof.
  destruct (proj2 (write_outputs_None_label [] disagreements_with_None)
              [(PStr "x", [PStr "dog"; PStr "cat"])]
              (PStr "y", [PStr "pos"; PNone])
              [(PStr "z", [PStr "b"; PStr "a"])]) as (Hraised & Hlog & _).
  - reflexivity.
  - apply (bool_decide_unpack _). vm_compute. exact I.
  - apply (bool_decide_unpack _). vm_compute. exact I.
  - by split.
Defined.

Example report_before_None :
  disagreements_log (write_outputs [] disagreements_with_None) =
  Some ("TEXT: x | LABELS: cat, dog" +:+ newline).
Proof. by vm_compute. Qed.

Section Line_feeds.
Local Arguments String.append !_ _ / : simpl nomatch.

Lemma line_feeds_app (s1 s2 : string) :
  line_feeds (s1 +:+ s2) = line_feeds s1 + line_feeds s2.
Proof.
  unfold line_feeds. by rewrite list_ascii_of_string_app, filter_app, length_app.
Qed.


Lemma line_feeds_file (lines : list string) :
  line_feeds (file_of_lines lines) = sum_list_with line_feeds lines.
Proof.
  induction lines as [|line lines IH]; [done|].
  simpl. by rewrite line_feeds_app, IH.
Qed.

Lemma line_feeds_concat (l : list string) :
  line_feeds (String.concat ", " l) = sum_list_with line_feeds l.
Proof.
  induction l as [|x [|y l] IH]; [done|simpl; lia|].
  change (String.concat ", " (x :: y :: l))
    with (x +:+ ", " +:+ String.concat ", " (y :: l)).
  rewrite !line_feeds_app, IH. simpl. done.
Qed.


(** X13: the report copies texts and labels as they are: for
    disagreements between strings, its line feeds are one per
    disagreement plus those of the texts and of the labels; it has one
    line per disagreement only when no text and no label holds a line
    feed. *)
Theorem report_line_feeds agreed (ds : list (string * list string)) :
  ∃ content,
    disagreements_log (write_outputs agreed (str_disagreement <$> ds)) = Some content ∧
    line_feeds content =
      length ds +
      sum_list_with (λ d, line_feeds d.1 + sum_list_with line_feeds d.2) ds.
Proof.
  pose (line := λ d : string * list string,
    "TEXT: " +:+ d.1 +:+ " | LABELS: " +:+
    String.concat ", " (merge_sort String.le d.2) +:+ newline).
  exists (file_of_lines (line <$> ds)). split.
  - unfold write_outputs.
    rewrite (write_log_returns _ (line <$> ds)); [done|].
    apply Forall2_fmap, Forall_Forall2_diag, Forall_forall.
    intros d _. apply log_line_strings.
  - rewrite line_feeds_file. induction ds as [|d ds IH]; [done|].
    csimpl. rewrite IH. unfold line at 1.
    rewrite !line_feeds_app, line_feeds_concat.
    rewrite (merge_sort_Permutation String.le d.2).
    change (line_feeds "TEXT: ") with 0.
    change (line_feeds " | LABELS: ") with 0.
    change (line_feeds newline) with 1. lia.
Qed.
End Line_feeds.

(** ** The run, from the rows to the clean data set *)

Section Process.
Variable float_of_str : string → option float.
Variable set_of : list pyval → list pyval.
Hypothesis Hset : set_order set_of.

(** X14: a run on rows of which one makes QC1 raise opens neither
    output file. Otherwise the clean data set holds one line per agreed
    sample, no text twice, and a text is there with a label exactly when
    some row passes QC1 with this text and every row that passes QC1
    with this text carries this label. *)
Theorem process_clean_dataset rows τ :
  (∀ e, first_error float_of_str τ rows = Some e →
     process float_of_str set_of rows τ = aborted e) ∧
  (first_error float_of_str τ rows = None →
   ∃ agreed,
     clean_training_dataset (process float_of_str set_of rows τ) =
       Some (file_of_lines (clean_line <$> agreed)) ∧
     NoDup agreed.*1 ∧
     ∀ t l, (t, l) ∈ agreed ↔
       (∃ row a, row ∈ rows ∧ accepted_of float_of_str τ row = Some a ∧ text a = t) ∧
       (∀ row a, row ∈ rows → accepted_of float_of_str τ row = Some a →
          text a = t → label a = l)).
Proof.
  unfold process. rewrite filter_by_confidence_closed_form. split.
  - by intros e ->.
  - intros ->.
    pose (anns := omap (accepted_of float_of_str τ) rows). fold anns.
    exists (apply_agreement_check set_of (group_by_text anns)).1.
    destruct (apply_agreement_check set_of (group_by_text anns))
      as [agreed dis] eqn:Hresolve.
    split_and!.
    + unfold write_outputs. destruct (write_log _ _). simpl. by rewrite foldl_write.
    + change agreed with (agreed, dis).1. rewrite <- Hresolve.
      eapply sublist_NoDup; [apply (group_by_text_keys_NoDup anns)|].
      apply agreed_keys_sublist, group_by_text_keys_NoDup.
    + intros t l. change agreed with (agreed, dis).1. rewrite <- Hresolve.
      rewrite (proj1 (resolve_on_annotations set_of Hset anns)).
      unfold anns. rewrite list_elem_of_fmap.
      setoid_rewrite list_elem_of_omap. split.
      * intros [(a & -> & row & Hrow & Ha) Hall]. split; [by exists row, a|].
        intros row' a' Hrow' Ha' Ht. apply Hall; [|done]. by exists row'.
      * intros [(row & a & Hrow & Ha & <-) Hall]. split.
        -- exists a. split; [done|]. by exists row.
        -- intros a' (row' & Hrow' & Ha') Ht. by apply (Hall row' a').
Qed.
End Process.

Lemma process_clean_dataset_witness :
  process decimal_float first_seen rows_with_short_line CONFIDENCE_THRESHOLD =
  aborted TypeError.
Proof.
  apply (process_clean_dataset decimal_float first_seen first_seen_set_order).
  by vm_compute.
Defined.

(** ** Grouping what has been grouped *)

Section Regroup.
Context {A : Type} `{EqDecision A}.

Lemma first_seen_app (l1 l2 : list A) :
  first_seen (l1 ++ l2) = first_seen l1 ++ filter (λ x, x ∉ l1) (first_seen l2).
Proof.
  induction l1 as [|x l1 IH]; simpl.
  - symmetry. apply filter_all, Forall_forall. intros y _. apply not_elem_of_nil.
  - rewrite IH, filter_app. do 2 f_equal.
    rewrite list_filter_filter. apply list_filter_iff.
    intros y. rewrite not_elem_of_cons. tauto.
Qed.

Lemma first_seen_constant (l : list A) k :
  l ≠ [] → Forall (λ x, x = k) l → first_seen l = [k].
Proof.
  intros Hne Hall. destruct Hall as [|x l -> Hall]; [done|]. simpl. f_equal.
  apply filter_none, Forall_forall. intros y Hy Hneq.
  apply (proj1 (elem_of_first_seen l y)) in Hy. rewrite Forall_forall in Hall.
  by apply Hneq, Hall.
Qed.
End Regroup.

Section Regroup_annotations.
Implicit Types anns : list annotation.

Lemma filter_concat {B} (P : B → Prop) `{!∀ x, Decision (P x)} (ls : list (list B)) :
  filter P (concat ls) = concat (filter P <$> ls).
Proof.
  induction ls as [|l ls IH]; [done|]. csimpl. by rewrite filter_app, IH.
Qed.

Lemma members_of_members anns k k' :
  filter (λ a, text a = k) (filter (λ a, text a = k') anns) =
  if decide (k = k') then filter (λ a, text a = k) anns else [].
Proof.
  rewrite list_filter_filter. case_decide as Hk.
  - subst k'. apply list_filter_iff. tauto.
  - apply filter_none, Forall_forall. intros a _ [? ?]. congruence.
Qed.

Lemma members_of_concat anns k (ks : list pyval) :
  NoDup ks →
  filter (λ a, text a = k) (concat ((λ k', filter (λ a, text a = k') anns) <$> ks)) =
  if decide (k ∈ ks) then filter (λ a, text a = k) anns else [].
Proof.
  induction 1 as [|k' ks Hk' _ IH]; [done|].
  csimpl. rewrite filter_app, members_of_members, IH.
  destruct (decide (k = k')) as [->|Hne].
  - rewrite decide_False by done. rewrite decide_True by left. by rewrite app_nil_r.
  - simpl. destruct (decide (k ∈ ks)) as [Hin|Hin].
    + by rewrite decide_True by (by right).
    + rewrite decide_False; [done|]. by intros [?|?]%elem_of_cons.
Qed.

Lemma first_seen_texts_concat anns (ks : list pyval) :
  NoDup ks → Forall (λ k, k ∈ text <$> anns) ks →
  first_seen (text <$> concat ((λ k', filter (λ a, text a = k') anns) <$> ks)) = ks.
Proof.
  induction 1 as [|k ks Hk Hks IH]; [done|].
  intros [Hin Hall]%Forall_cons. csimpl.
  rewrite fmap_app, first_seen_app, IH by done.
  rewrite (first_seen_constant _ k).
  - simpl. f_equal. apply filter_all, Forall_forall.
    intros k' Hk' (a & -> & [Ha _]%list_elem_of_filter)%list_elem_of_fmap.
    by rewrite Ha in Hk'.
  - apply list_elem_of_fmap in Hin as (a & -> & Ha).
    intros Hnil%fmap_nil_inv.
    by apply (filter_nil_not_elem_of _ _ a) in Hnil.
  - apply Forall_forall.
    by intros t (a & -> & [Ha _]%list_elem_of_filter)%list_elem_of_fmap.
Qed.

(** X15: grouping is stable: the groups written one after the other
    form a sequence of annotations that is grouped into the same groups,
    in the same order. *)
Theorem group_by_text_regroup anns :
  group_by_text (concat (group_by_text anns).*2) = group_by_text anns.
Proof.
  rewrite !(group_by_text_closed_form anns), <- list_fmap_compose.
  change (snd ∘ _) with (λ k', filter (λ a, text a = k') anns).
  rewrite group_by_text_closed_form.
  assert (Hall : Forall (λ k, k ∈ text <$> anns) (first_seen (text <$> anns))).
  { apply Forall_forall. intros k. apply elem_of_first_seen. }
  rewrite first_seen_texts_concat by (apply NoDup_first_seen || done).
  apply list_fmap_ext. intros i k Hk. f_equal.
  rewrite members_of_concat by apply NoDup_first_seen.
  rewrite decide_True; [done|]. by eapply list_elem_of_lookup_2.
Qed.
End Regroup_annotations.

(** ** The lines of the report *)

Section Report_lines.
Lemma sum_line_feeds_zero (l : list string) :
  Forall (λ x, line_feeds x = 0) l → sum_list_with line_feeds l = 0.
Proof. induction 1 as [|x l Hx _ IH]; simpl; [done|]. by rewrite Hx, IH. Qed.

Lemma log_entry_line_feeds (t : string) (sorted : list string) :
  line_feeds ("TEXT: " +:+ t +:+ " | LABELS: " +:+
              String.concat ", " sorted +:+ newline) =
  1 + line_feeds t + sum_list_with line_feeds sorted.
Proof.
  rewrite !line_feeds_app, line_feeds_concat.
  change (line_feeds "TEXT: ") with 0.
  change (line_feeds " | LABELS: ") with 0.
  change (line_feeds newline) with 1. lia.
Qed.

(** C7, as amended: for disagreements between strings the report is
    written without an exception and holds one entry per disagreement,
    in their order: [TEXT: ], the text, [ | LABELS: ], the labels in
    lexicographic order with a comma and a space between them, and a
    line feed. The text and the labels are copied as they are: the
    entry is exactly one line when neither the text nor a label holds a
    line feed. *)
Theorem disagreement_report_format agreed (ds : list (string * list string)) :
  raised (write_outputs agreed (str_disagreement <$> ds)) = None ∧
  ∃ lines,
    disagreements_log (write_outputs agreed (str_disagreement <$> ds)) =
      Some (file_of_lines lines) ∧
    Forall2 (λ d line, ∃ sorted,
               sorted ≡ₚ d.2 ∧ Sorted String.le sorted ∧
               line = "TEXT: " +:+ d.1 +:+ " | LABELS: " +:+
                      String.concat ", " sorted +:+ newline ∧
               (line_feeds d.1 = 0 → Forall (λ l, line_feeds l = 0) d.2 →
                line_feeds line = 1)) ds lines.
Proof.
  pose (line := λ d : string * list string,
    "TEXT: " +:+ d.1 +:+ " | LABELS: " +:+
    String.concat ", " (merge_sort String.le d.2) +:+ newline).
  unfold write_outputs.
  rewrite (write_log_returns _ (line <$> ds)).
  - simpl. split; [done|]. exists (line <$> ds). split; [done|].
    apply Forall2_fmap_r, Forall_Forall2_diag, Forall_forall.
    intros d _. exists (merge_sort String.le d.2).
    split_and!; [apply merge_sort_Permutation|apply (Sorted_merge_sort _)|done|].
    intros Htext Hlabels. unfold line. rewrite log_entry_line_feeds, Htext.
    rewrite (merge_sort_Permutation String.le d.2).
    by rewrite sum_line_feeds_zero.
  - apply Forall2_fmap, Forall_Forall2_diag, Forall_forall.
    intros d _. apply log_line_strings.
Qed.
End Report_lines.

(** C7 as it was stated fails on a text with a line feed: the one
    disagreement takes two lines of the report. *)
Lemma disagreement_with_line_feed_two_lines :
  disagreements_log (write_outputs [] [str_disagreement two_line_disagreement]) =
    Some ("TEXT: a" +:+ newline +:+ "b | LABELS: cat, dog" +:+ newline) ∧
  line_feeds ("TEXT: a" +:+ newline +:+ "b | LABELS: cat, dog" +:+ newline) = 2 ∧
  ¬ (∃ content,
       disagreements_log (write_outputs [] [str_disagreement two_line_disagreement]) =
         Some content ∧
       line_feeds content = 1).
Proof.
  split_and!; [by vm_compute..|].
  intros (content & Hlog & Hone). vm_compute in Hlog.
  injection Hlog as <-. vm_compute in Hone. discriminate.
Qed.

Lemma disagreement_report_format_witness :
  ∃ lines,
    disagreements_log (write_outputs [] [str_disagreement ("x", ["dog"; "cat"])]) =
      Some (file_of_lines lines) ∧
    Forall (λ line, line_feeds line = 1) lines.
Proof.
  destruct (disagreement_report_format [] [("x", ["dog"; "cat"])])
    as (_ & lines & Hlog & Hlines).
  exists lines. split; [done|].
  apply Forall2_cons_inv_l in Hlines
    as (line & lines' & (sorted & _ & _ & _ & Hone) & Hnil & ->).
  apply Forall2_nil_inv_l in Hnil as ->.
  apply List.Forall_cons; [|apply List.Forall_nil].
  apply Hone; [by vm_compute|].
  apply List.Forall_cons; [by vm_compute|].
  apply List.Forall_cons; [by vm_compute|apply List.Forall_nil].
Defined.
